(** * DeepRacer log utilities: [deepracer/logs/log_utils.py]

    A shallow embedding of the log loader, the tabular converter, the
    aggregator, the waypoint bracketing of the reward recomputation, the
    action-name helper and the reward grid of [plot_track], followed by the
    properties stated about them.

    Conventions.
    - Python [int] is [Z]; Python [float] is an IEEE binary64 value, here a
      primitive [float]; [decimal.Decimal] is a coefficient and an exponent.
    - A Python exception is the [Raise] outcome of [result].
    - Code that mutates an object or prints is a state transformer [prog]. *)

From Stdlib Require Import ZArith QArith String Ascii List Sorted Lia Lqa.
From Stdlib Require Import Floats.PrimFloat Floats.SpecFloat Floats.FloatOps.
From stdpp Require Import base option list gmap strings pretty.

Local Open Scope string_scope.
Local Open Scope list_scope.

(** ** Python runtime: exceptions and outcomes *)

Inductive exn : Set :=
| TypeError
| ValueError
| IndexError
| KeyError
| ZeroDivisionError
| OverflowError
| InvalidOperation
| FileNotFoundError.

Inductive result (A : Type) : Type :=
| Ok (a : A)
| Raise (e : exn).

Arguments Ok {A} a.
Arguments Raise {A} e.

#[global] Instance result_ret : MRet result := fun A a => Ok a.

#[global] Instance result_bind : MBind result :=
  fun A B f m => match m with Ok a => f a | Raise e => Raise e end.

#[global] Instance result_fmap : FMap result :=
  fun A B f m => match m with Ok a => Ok (f a) | Raise e => Raise e end.

Definition is_ok {A} (r : result A) : bool :=
  match r with Ok _ => true | Raise _ => false end.

(** [mapM]: a comprehension or a [for] loop that builds a list; the first
    exception aborts it. *)
Fixpoint result_mapM {A B} (f : A -> result B) (l : list A) : result (list B) :=
  match l with
  | [] => Ok []
  | a :: l' => b ← f a; bs ← result_mapM f l'; Ok (b :: bs)
  end.

(** A program over a mutable state [S]: the state survives an exception. *)
Definition prog (S A : Type) : Type := S -> result A * S.

Definition prog_ret {S A} (a : A) : prog S A := fun s => (Ok a, s).

Definition prog_bind {S A B} (m : prog S A) (f : A -> prog S B) : prog S B :=
  fun s => match m s with
           | (Ok a, s') => f a s'
           | (Raise e, s') => (Raise e, s')
           end.

Definition lift {S A} (r : result A) : prog S A := fun s => (r, s).

Definition get {S} : prog S S := fun s => (Ok s, s).

Definition modify {S} (f : S -> S) : prog S unit := fun s => (Ok tt, f s).

Declare Scope prog_scope.
Delimit Scope prog_scope with prog.
Notation "x <- m ;; k" := (prog_bind m (fun x => k))
  (at level 100, m at next level, right associativity) : prog_scope.
Notation "m ;; k" := (prog_bind m (fun _ => k))
  (at level 100, right associativity) : prog_scope.

(** A [for] loop run for its effects. *)
Fixpoint for_each {S A} (l : list A) (body : A -> prog S unit) : prog S unit :=
  match l with
  | [] => prog_ret tt
  | a :: l' => (body a ;; for_each l' body)%prog
  end.

(** Indexing a sequence, [seq[i]], with Python's negative indices. *)
Definition py_index {A} (l : list A) (i : Z) : result A :=
  let n := Z.of_nat (length l) in
  let j := if (i <? 0)%Z then (i + n)%Z else i in
  if ((0 <=? j)%Z && (j <? n)%Z)%bool
  then match l !! Z.to_nat j with Some a => Ok a | None => Raise IndexError end
  else Raise IndexError.

(** ** Python strings *)

Module Str.

(** [needle in hay]. *)
Fixpoint contains (needle hay : string) : bool :=
  String.prefix needle hay ||
  match hay with
  | EmptyString => false
  | String _ t => contains needle t
  end.

(** [s.split(sep)] for a non-empty separator: [skip] counts the characters
    of a matched separator still to be dropped. *)
Fixpoint split_aux (sep : string) (skip : nat) (s : string) : list string :=
  match s with
  | EmptyString => [EmptyString]
  | String c t =>
      match skip with
      | S k => split_aux sep k t
      | O =>
          if String.prefix sep s
          then EmptyString :: split_aux sep (String.length sep - 1) t
          else match split_aux sep 0 t with
               | h :: r => String c h :: r
               | [] => [String c EmptyString]
               end
      end
  end.

Definition split (sep s : string) : list string := split_aux sep 0 s.

(** [sep.join(parts)]. *)
Definition join (sep : string) (parts : list string) : string :=
  String.concat sep parts.

(** The ASCII characters for which [str.isspace] holds. *)
Definition is_space (c : ascii) : bool :=
  let n := nat_of_ascii c in
  ((9 <=? n)%nat && (n <=? 13)%nat) || ((28 <=? n)%nat && (n <=? 32)%nat).

(** [s.rstrip()]. *)
Fixpoint rstrip (s : string) : string :=
  match s with
  | EmptyString => EmptyString
  | String c t =>
      match rstrip t with
      | EmptyString => if is_space c then EmptyString else String c EmptyString
      | t' => String c t'
      end
  end.

Definition tab : string := String (ascii_of_nat 9) EmptyString.
Definition newline : string := String (ascii_of_nat 10) EmptyString.

End Str.

(** ** Numbers *)

(** A finite [decimal.Decimal]: the value [dcoef * 10 ^ dexp]. *)
Record Decimal : Set := mkDecimal { dcoef : Z; dexp : Z }.

(** The casts from text are Python's own; the program is read for every
    behaviour of theirs. *)
Class Builtins : Type := {
  py_int : string -> result Z;            (* [int(s)] *)
  py_float : string -> result float;      (* [float(s)] *)
  py_Decimal : string -> result Decimal;  (* [Decimal(s)] *)
  py_str : float -> string;               (* [str(f)], as [%s] prints it *)
}.

(** *** Decimals *)

(** Two decimals brought to their smaller exponent. *)
Definition dec_align (a b : Decimal) : Z * Z * Z :=
  let e := Z.min (dexp a) (dexp b) in
  ((dcoef a * 10 ^ (dexp a - e))%Z, (dcoef b * 10 ^ (dexp b - e))%Z, e).

Definition dec_leb (a b : Decimal) : bool :=
  let '(ca, cb, _) := dec_align a b in (ca <=? cb)%Z.

(** Number of decimal digits of a non-negative integer. *)
Fixpoint ndigits_aux (fuel : nat) (c : Z) : Z :=
  match fuel with
  | O => 0
  | S fuel' => if (c <=? 0)%Z then 0%Z else (1 + ndigits_aux fuel' (c / 10))%Z
  end.

Definition ndigits (c : Z) : Z := ndigits_aux (S (Z.to_nat (Z.log2 c))) c.

(** The default context: 28 significant digits, rounded half to even. *)
Definition dec_prec : Z := 28.

Definition dec_fix (c e : Z) : Decimal :=
  let n := ndigits (Z.abs c) in
  if (n <=? dec_prec)%Z then mkDecimal c e
  else
    let k := (n - dec_prec)%Z in
    let p := (10 ^ k)%Z in
    let q := (Z.abs c / p)%Z in
    let r := (Z.abs c mod p)%Z in
    let up := ((p <? 2 * r) || ((p =? 2 * r) && Z.odd q))%Z in
    let q' := if up then (q + 1)%Z else q in
    let '(q'', e') := if (q' =? 10 ^ dec_prec)%Z
                      then ((10 ^ (dec_prec - 1))%Z, (e + k + 1)%Z)
                      else (q', (e + k)%Z) in
    mkDecimal (Z.sgn c * q'') e'.

(** [a - b]. *)
Definition dec_sub (a b : Decimal) : Decimal :=
  let '(ca, cb, e) := dec_align a b in dec_fix (ca - cb) e.

(** [np.maximum] and [np.minimum] on objects: [a if a >= b else b] and
    [a if a <= b else b]. *)
Definition dec_max (a b : Decimal) : Decimal := if dec_leb b a then a else b.
Definition dec_min (a b : Decimal) : Decimal := if dec_leb a b then a else b.

(** *** Floats *)

(** An int as an unrounded binary float: its sign and magnitude, with
    exponent 0. *)
Definition Z2SF (z : Z) : spec_float :=
  match z with
  | Z0 => S754_zero false
  | Zpos p => S754_finite false p 0
  | Zneg p => S754_finite true p 0
  end.

(** [int(f)] on the sign, mantissa and exponent of a float: truncation
    toward zero; infinities and nan are refused. *)
Definition SF_trunc (f : spec_float) : result Z :=
  match f with
  | S754_zero _ => Ok 0%Z
  | S754_finite s m e =>
      let v := if (0 <=? e)%Z then (Zpos m * 2 ^ e)%Z
               else (Zpos m / 2 ^ (- e))%Z in
      Ok (if s then (- v)%Z else v)
  | S754_infinity _ => Raise OverflowError
  | S754_nan => Raise ValueError
  end.

(** [int(a / b)] for two ints.  [a / b] is the quotient of the two ints
    rounded once to the nearest binary64 value, [ZeroDivisionError] for a
    zero divisor and [OverflowError] for a quotient beyond the floats;
    [int] then truncates toward zero. *)
Definition int_truediv (a b : Z) : result Z :=
  if (b =? 0)%Z then Raise ZeroDivisionError
  else SF_trunc (SFdiv prec emax (Z2SF a) (Z2SF b)).

(** [float(d)]: the binary64 value nearest to the decimal. *)
Definition float_of_decimal (d : Decimal) : float :=
  if (0 <=? dexp d)%Z
  then SF2Prim (binary_normalize prec emax (dcoef d * 10 ^ dexp d) 0 false)
  else SF2Prim (SFdiv prec emax (Z2SF (dcoef d)) (Z2SF (10 ^ (- dexp d)))).

Definition is_nan (f : float) : bool := negb (PrimFloat.eqb f f).

(** *** Casts of plain decimal literals

    An instance of [Builtins] for the literals the simulator prints: an
    optional sign, digits, and an optional fraction. It is used to run the
    program on sample logs. *)

Definition digit_of (c : ascii) : option Z :=
  let n := nat_of_ascii c in
  if ((48 <=? n)%nat && (n <=? 57)%nat)%bool
  then Some (Z.of_nat (n - 48)) else None.

(** Reads digits and at most one point: the digits read so far as a number,
    and how many of them follow the point. *)
Fixpoint scan_literal (s : string) (seen_point : bool) (coef frac : Z)
  : option (Z * Z) :=
  match s with
  | EmptyString => Some (coef, frac)
  | String c t =>
      if Ascii.eqb c "."%char
      then if seen_point then None else scan_literal t true coef frac
      else match digit_of c with
           | Some d => scan_literal t seen_point (10 * coef + d)%Z
                         (if seen_point then (frac + 1)%Z else frac)
           | None => None
           end
  end.

Definition has_digit (s : string) : bool :=
  Str.contains "0" s || Str.contains "1" s || Str.contains "2" s ||
  Str.contains "3" s || Str.contains "4" s || Str.contains "5" s ||
  Str.contains "6" s || Str.contains "7" s || Str.contains "8" s ||
  Str.contains "9" s.

Definition plain_Decimal (s : string) : result Decimal :=
  let '(neg, body) := match s with
                      | String "-" t => (true, t)
                      | String "+" t => (false, t)
                      | _ => (false, s)
                      end in
  if has_digit body
  then match scan_literal body false 0 0 with
       | Some (coef, frac) =>
           Ok (mkDecimal (if neg then (- coef)%Z else coef) (- frac))
       | None => Raise ValueError
       end
  else Raise ValueError.

Definition plain_int (s : string) : result Z :=
  if Str.contains "." s then Raise ValueError
  else dcoef <$> plain_Decimal s.

Definition plain_float (s : string) : result float :=
  float_of_decimal <$> plain_Decimal s.

(** Floats are printed through their integer part only. *)
Definition plain_str (f : float) : string :=
  match Prim2SF f with
  | S754_finite s m e =>
      (if s then "-" else "") +:+
      pretty (if (0 <=? e)%Z then (Zpos m * 2 ^ e)%Z else (Zpos m / 2 ^ (- e))%Z)
  | S754_zero _ => "0"
  | S754_infinity s => if s then "-inf" else "inf"
  | S754_nan => "nan"
  end.

Definition plain_casts : Builtins :=
  {| py_int := plain_int; py_float := plain_float;
     py_Decimal := plain_Decimal; py_str := plain_str |}.

(** ** The table of trace records *)

Module Trace.

(** One row of the table, in column order. *)
Record t : Type := mk {
  iteration : Z;
  episode : Z;
  steps : Z;
  x : float;
  y : float;
  yaw : float;
  steer : float;
  throttle : float;
  action : float;
  reward : float;
  done : Z;
  on_track : string;
  progress : float;
  closest_waypoint : Z;
  track_len : float;
  timestamp : Decimal;
}.

End Trace.

Definition header : list string :=
  ["iteration"; "episode"; "steps"; "x"; "y"; "yaw"; "steer";
   "throttle"; "action"; "reward"; "done"; "on_track"; "progress";
   "closest_waypoint"; "track_len"; "timestamp"].

(** A data frame of trace records: the sixteen [header] columns, and
    possibly a [new_reward] column after them. *)
Inductive DataFrame : Type :=
| Frame (rows : list Trace.t)
| FrameNewReward (rows : list (Trace.t * float)).

Definition columns (df : DataFrame) : list string :=
  match df with
  | Frame _ => header
  | FrameNewReward _ => header ++ ["new_reward"]
  end.

Definition traces (df : DataFrame) : list Trace.t :=
  match df with
  | Frame rows => rows
  | FrameNewReward rows => map fst rows
  end.

(** [df['new_reward']]. *)
Definition new_reward_column (df : DataFrame) : result (list float) :=
  match df with
  | Frame _ => Raise KeyError
  | FrameNewReward rows => Ok (map snd rows)
  end.

(** [df['new_reward'] = values], for as many values as there are rows. *)
Definition set_new_reward (df : DataFrame) (values : list float) : DataFrame :=
  FrameNewReward (zip (traces df) values).

(** ** [SimulationLogsIO]: loading the logs *)

Module SimulationLogsIO.

(** The file system: a path names the lines [readlines()] returns. *)
Definition isfile (fs : gmap string (list string)) (path : string) : bool :=
  bool_decide (is_Some (fs !! path)).

Definition open_readlines (fs : gmap string (list string)) (path : string)
  : result (list string) :=
  match fs !! path with
  | Some lines => Ok lines
  | None => Raise FileNotFoundError
  end.

(** The interpreter state of the loader: a heap of list objects, addressed
    by position, and the lines printed so far. *)
Record world : Type := mkWorld {
  heap : list (list string);
  stdout : list string;
}.

Definition loc := nat.

(** [[]]: a fresh list object. *)
Definition new_list : prog world loc :=
  fun w => (Ok (length (heap w)),
            {| heap := heap w ++ [[]]; stdout := stdout w |}).

(** [data.append(s)]. *)
Definition list_append (l : loc) (s : string) : prog world unit :=
  modify (fun w => {| heap := alter (fun xs => xs ++ [s]) l (heap w);
                      stdout := stdout w |}).

Definition list_read (l : loc) : prog world (list string) :=
  fun w => (Ok (default [] (heap w !! l)), w).

Definition print (s : string) : prog world unit :=
  modify (fun w => {| heap := heap w; stdout := stdout w ++ [s] |}).

(** Truth value of [data]: [None] and the empty list are both false. *)
Definition truth (data : option loc) : prog world bool :=
  match data with
  | None => prog_ret false
  | Some l => (xs <- list_read l ;;
               prog_ret (match xs with [] => false | _ => true end))%prog
  end.

(** [line.split("SIM_TRACE_LOG:")[1].split('\t')[0].split(",")]. *)
Definition trace_parts (line : string) : result (list string) :=
  after ← py_index (Str.split "SIM_TRACE_LOG:" line) 1;
  field ← py_index (Str.split Str.tab after) 0;
  Ok (Str.split "," field).

Definition load_single_file (fs : gmap string (list string)) (fname : string)
  (data : option loc) : prog world loc :=
  (t <- truth data ;;
   data <- match data, t with
           | Some l, true => prog_ret l
           | _, _ => new_list
           end ;;
   lines <- lift (open_readlines fs fname) ;;
   for_each lines (fun line =>
     if Str.contains "SIM_TRACE_LOG" line
     then (parts <- lift (trace_parts line) ;;
           list_append data (Str.join "," parts))
     else prog_ret tt) ;;
   prog_ret data)%prog.

(** ['%s.%s' % (fname, i)]. *)
Definition rollover_name (fname : string) (i : nat) : string :=
  fname +:+ "." +:+ pretty i.

(** The [while isfile(...)] loop; [None] when the fuel runs out. It
    returns the final value of [i]. *)
Fixpoint load_rollovers (fuel : nat) (fs : gmap string (list string))
  (fname : string) (data : loc) (i : nat) (w : world)
  : option (result nat * world) :=
  match fuel with
  | O => None
  | S fuel' =>
      if isfile fs (rollover_name fname i)
      then match load_single_file fs (rollover_name fname i) (Some data) w with
           | (Ok _, w') => load_rollovers fuel' fs fname data (S i) w'
           | (Raise e, w') => Some (Raise e, w')
           end
      else Some (Ok i, w)
  end.

Definition load_data_fuel (fuel : nat) (fs : gmap string (list string))
  (fname : string) (w : world) : option (result (list string) * world) :=
  match new_list w with
  | (Raise e, w0) => Some (Raise e, w0)
  | (Ok data, w0) =>
      match load_rollovers fuel fs fname data 1 w0 with
      | None => None
      | Some (Raise e, w1) => Some (Raise e, w1)
      | Some (Ok i, w1) =>
          Some ((_ <- load_single_file fs fname (Some data) ;;
                 (if (1 <? i)%nat
                  then print ("Loaded " +:+ pretty i +:+
                              " log files (logs rolled over)")
                  else prog_ret tt) ;;
                 list_read data)%prog w1)
      end
  end.

(** Each turn of the loop finds one more file, so one turn more than there
    are files is enough (see [load_data_fuel_enough]). *)
Definition load_data (fs : gmap string (list string)) (fname : string)
  (w : world) : option (result (list string) * world) :=
  load_data_fuel (S (size fs)) fs fname w.

(** The body of the loop of [convert_to_pandas], for one record. *)
Definition parse_trace `{Builtins} (episodes_per_iteration : Z) (d : string)
  : result Trace.t :=
  let parts := Str.split "," (Str.rstrip d) in
  episode ← py_index parts 0 ≫= py_int;
  steps ← py_index parts 1 ≫= py_int;
  x ← PrimFloat.mul 100 <$> (py_index parts 2 ≫= py_float);
  y ← PrimFloat.mul 100 <$> (py_index parts 3 ≫= py_float);
  yaw ← py_index parts 4 ≫= py_float;
  steer ← py_index parts 5 ≫= py_float;
  throttle ← py_index parts 6 ≫= py_float;
  action ← py_index parts 7 ≫= py_float;
  reward ← py_index parts 8 ≫= py_float;
  done ← (fun p => if Str.contains "False" p then 0%Z else 1%Z)
           <$> py_index parts 9;
  all_wheels_on_track ← py_index parts 10;
  progress ← py_index parts 11 ≫= py_float;
  closest_waypoint ← py_index parts 12 ≫= py_int;
  track_len ← py_index parts 13 ≫= py_float;
  tstamp ← py_index parts 14 ≫= py_Decimal;
  iteration ← Z.succ <$> int_truediv episode episodes_per_iteration;
  Ok (Trace.mk iteration episode steps x y yaw steer throttle action reward
        done all_wheels_on_track progress closest_waypoint track_len tstamp).

Definition convert_to_pandas `{Builtins} (data : list string)
  (episodes_per_iteration : Z) : result DataFrame :=
  df_list ← result_mapM (parse_trace episodes_per_iteration) (drop 2 data);
  Ok (Frame df_list).

(** [load_to_pandas(eval_fname)]: the loader, then the converter with its
    default of twenty episodes per iteration. *)
Definition load_to_pandas `{Builtins} (fs : gmap string (list string))
  (eval_fname : string) (w : world) : option (result DataFrame * world) :=
  match load_data fs eval_fname w with
  | None => None
  | Some (Raise e, w') => Some (Raise e, w')
  | Some (Ok eval_data, w') => Some (convert_to_pandas eval_data 20, w')
  end.

End SimulationLogsIO.

(** ** pandas and numpy: grouping, reductions, joins, binning *)

(** The reductions whose rounding depends on the order in which the
    library adds, and the conversion to [datetime64]: the program is read
    for every behaviour of theirs. *)
Class Numpy : Type := {
  np_sum : list float -> float;            (* [np.sum] *)
  np_mean : list float -> float;           (* [np.mean] *)
  pd_to_datetime : float -> result Z;      (* [pd.to_datetime(_, unit='s')] *)
}.

(** [np.max] on integers. *)
Definition np_max_int (l : list Z) : Z :=
  match l with
  | [] => 0%Z
  | h :: t => fold_left Z.max t h
  end.

(** [np.min] on integers. *)
Definition np_min_int (l : list Z) : Z :=
  match l with
  | [] => 0%Z
  | h :: t => fold_left Z.min t h
  end.

(** [np.max] on a float column: missing values (NaN) are skipped. *)
Definition fmax (a b : float) : float :=
  if is_nan a then b
  else if is_nan b then a
  else if PrimFloat.ltb a b then b else a.

Definition np_max (l : list float) : float := fold_left fmax l nan.

(** [np.ptp] on a column of decimals: the maximum minus the minimum. *)
Definition np_ptp (l : list Decimal) : Decimal :=
  match l with
  | [] => mkDecimal 0 0
  | h :: t => dec_sub (fold_left dec_max t h) (fold_left dec_min t h)
  end.

Definition np_max_dec (l : list Decimal) : Decimal :=
  match l with
  | [] => mkDecimal 0 0
  | h :: t => fold_left dec_max t h
  end.

(** [first()]: the first value of a group. *)
Definition first (l : list Z) : Z := default 0%Z (head l).

(** A group key: the values of the two grouping columns. *)
Definition key : Type := Z * Z.

Definition key_eqb (a b : key) : bool :=
  ((a.1 =? b.1)%Z && (a.2 =? b.2)%Z)%bool.

Definition key_ltb (a b : key) : bool :=
  ((a.1 <? b.1)%Z || ((a.1 =? b.1)%Z && (a.2 <? b.2)%Z))%bool.

Fixpoint insert_key (k : key) (ks : list key) : list key :=
  match ks with
  | [] => [k]
  | h :: t =>
      if key_ltb k h then k :: ks
      else if key_eqb k h then ks
      else h :: insert_key k t
  end.

(** The distinct keys, in ascending order. *)
Definition sorted_keys (ks : list key) : list key := foldr insert_key [] ks.

(** The positions, from [i] on, of the rows whose key is [k]. *)
Fixpoint positions (k : key) (ks : list key) (i : nat) : list nat :=
  match ks with
  | [] => []
  | h :: t =>
      if key_eqb h k then i :: positions k t (S i) else positions k t (S i)
  end.

(** [df.groupby([c1, c2])]: each key with the positions of its rows. The
    group-by object keeps positions, not values: a column is read from the
    table when it is selected. *)
Definition groupby (ks : list key) : list (key * list nat) :=
  map (fun k => (k, positions k ks 0)) (sorted_keys ks).

Definition take_rows {A} (col : list A) (idxs : list nat) : list A :=
  omap (fun i => col !! i) idxs.

(** [grouped[c].agg(f).reset_index()]. *)
Definition agg {A B} (grouped : list (key * list nat)) (col : list A)
  (f : list A -> B) : list (key * B) :=
  map (fun '(k, idxs) => (k, f (take_rows col idxs))) grouped.

(** [left.merge(right, on=[c1, c2])]: an inner join in the order of the
    left rows. *)
Definition merge {A B} (l : list (key * A)) (r : list (key * B))
  : list (key * (A * B)) :=
  flat_map (fun '(k, a) =>
              map (fun '(_, b) => (k, (a, b)))
                  (List.filter (fun kb => key_eqb kb.1 k) r)) l.

(** A merge that is skipped under [skip] leaves the column out. *)
Definition merge_unless {A B} (skip : bool) (l : list (key * A))
  (r : list (key * B)) : list (key * (A * option B)) :=
  if skip then map (fun '(k, a) => (k, (a, None))) l
  else merge l (map (fun '(k, b) => (k, Some b)) r).

(** [pd.cut(xs, bins, labels=labels)] on an integer column: [bins]
    intervals of equal width from the least to the greatest value, closed
    on the right, the first one widened to take the least value in. The
    label of [v] is numbered by the inner edges below [v]; the edge [j] is
    [mn + j * (mx - mn) / bins]. When all values are equal the range is
    widened on both sides and the value sits in its middle. *)
Definition cut_code (mn mx : Z) (bins : nat) (v : Z) : nat :=
  length (List.filter
            (fun j : nat =>
               if (mn =? mx)%Z then (2 * j <? bins)%nat
               else (Z.of_nat j * (mx - mn) <? Z.of_nat bins * (v - mn))%Z)
            (seq 1 (bins - 1))).

Definition pd_cut (xs : list Z) (bins : nat) (labels : list string)
  : result (list string) :=
  match xs with
  | [] => Raise ValueError
  | _ :: _ =>
      if negb (length labels =? bins)%nat then Raise ValueError
      else
        let mn := np_min_int xs in
        let mx := np_max_int xs in
        result_mapM (fun v => match labels !! cut_code mn mx bins v with
                              | Some l => Ok l
                              | None => Raise IndexError
                              end) xs
  end.

(** ** [AnalysisUtils]: the aggregator *)

Module Agg.

(** One row of the aggregate table, in column order; a column that the
    flags leave out is [None]. *)
Record t : Type := mk {
  group : Z;
  episode : Z;
  steps : Z;
  start_at : Z;
  progress : float;
  time : float;
  new_reward : option float;
  throttle : float;
  reward : option float;
  time_if_complete : float;
  reward_if_complete : option float;
  quintile : option string;
  timestamp : option Z;
}.

End Agg.

Module AnalysisUtils.

(** The caller's table, which [simulation_agg] may extend in place, and the
    lines printed. *)
Record env : Type := mkEnv {
  panda : DataFrame;
  printed : list string;
}.

Definition print (s : string) : prog env unit :=
  modify (fun e => {| panda := panda e; printed := printed e ++ [s] |}).

Definition get_panda : prog env DataFrame :=
  fun e => (Ok (panda e), e).

Definition set_panda (df : DataFrame) : prog env unit :=
  modify (fun e => {| panda := df; printed := printed e |}).

Definition column {A} (f : Trace.t -> A) (df : DataFrame) : list A :=
  map f (traces df).

Definition quintile_labels : list string := ["1st"; "2nd"; "3rd"; "4th"; "5th"].

Definition simulation_agg `{Numpy} (firstgroup : Trace.t -> Z)
  (add_timestamp is_eval : bool) : prog env (list Agg.t) :=
  (df <- get_panda ;;
   let grouped :=
     groupby (map (fun r => (firstgroup r, Trace.episode r)) (traces df)) in
   let by_steps := agg grouped (column Trace.steps df) np_max_int in
   let by_start := agg grouped (column Trace.closest_waypoint df) first in
   let by_progress := agg grouped (column Trace.progress df) np_max in
   let by_throttle := agg grouped (column Trace.throttle df) np_mean in
   let by_time :=
     map (fun '(k, d) => (k, float_of_decimal d))
         (agg grouped (column Trace.timestamp df) np_ptp) in
   let result := merge (merge (merge by_steps by_start) by_progress) by_time in
   by_new_reward <-
     (if is_eval then prog_ret []
      else
        ((if bool_decide ("new_reward" ∈ columns df) then prog_ret tt
          else (print "new reward not found, using reward as its values" ;;
                set_panda (set_new_reward df (column Trace.reward df)))) ;;
         df1 <- get_panda ;;
         values <- lift (new_reward_column df1) ;;
         prog_ret (agg grouped values np_sum))) ;;
   let result := merge_unless is_eval result by_new_reward in
   let result := merge result by_throttle in
   df2 <- get_panda ;;
   let by_reward := agg grouped (column Trace.reward df2) np_sum in
   let result := merge_unless is_eval result by_reward in
   let result :=
     map (fun '(k, (steps, start_at, progress, time, new_reward,
                    throttle, reward)) =>
            (k, (steps, start_at, progress, time, new_reward, throttle,
                 reward,
                 PrimFloat.div (PrimFloat.mul time 100) progress,
                 (fun r => PrimFloat.div (PrimFloat.mul r 100) progress)
                   <$> reward))) result in
   quintile <-
     (if is_eval then prog_ret (map (fun _ => None) result)
      else lift (map Some <$> pd_cut (map (fun r => r.1.2) result) 5
                                     quintile_labels)) ;;
   let result := zip_with (fun '(k, v) q => (k, (v, q))) result quintile in
   by_timestamp <-
     (if add_timestamp
      then lift (result_mapM
                   (fun '(k, d) => t ← pd_to_datetime (float_of_decimal d);
                                   Ok (k, t))
                   (agg grouped (column Trace.timestamp df2) np_max_dec))
      else prog_ret []) ;;
   let result := merge_unless (negb add_timestamp) result by_timestamp in
   prog_ret
     (map (fun '(k, (steps, start_at, progress, time, new_reward, throttle,
                     reward, time_if_complete, reward_if_complete, quintile,
                     timestamp)) =>
             Agg.mk k.1 k.2 steps start_at progress time new_reward throttle
               reward time_if_complete reward_if_complete quintile timestamp)
          result))%prog.

End AnalysisUtils.

(** *** A plain instance of the numeric library

    Sums from left to right, the mean as the sum over the count, and
    timestamps as whole nanoseconds: used to run the aggregator on sample
    tables. *)

Definition float_of_Z (z : Z) : float :=
  SF2Prim (binary_normalize prec emax z 0 false).

(** [int(f)]: truncation toward zero. *)
Definition float_to_Z (f : float) : result Z := SF_trunc (Prim2SF f).

Definition plain_sum (l : list float) : float :=
  fold_left PrimFloat.add l 0%float.

Definition plain_numpy : Numpy :=
  {| np_sum := plain_sum;
     np_mean l := PrimFloat.div (plain_sum l) (float_of_Z (Z.of_nat (length l)));
     pd_to_datetime f :=
       ns ← float_to_Z (PrimFloat.mul f 1000000000);
       if (Z.abs ns <? 2 ^ 63)%Z then Ok ns else Raise OverflowError |}.

(** ** [NewRewardUtils]: the waypoints that bracket the car *)

(** Coordinates: the numbers of the [x] and [y] columns and of the
    waypoint array, with numpy's [==]. *)
Class Coordinate (T : Type) : Type := {
  coord_eqb : T -> T -> bool;
}.

(** The two helpers of [GeometryUtils] ([deepracer/tracks/track_utils.py])
    that [df_to_params] calls. *)
Class GeometryUtils (T : Type) : Type := {
  get_a_point_on_a_line_closest_to_point : T * T -> T * T -> T * T -> T * T;
  is_point_roughly_on_the_line : T * T -> T * T -> T -> T -> bool;
}.

Module NewRewardUtils.

(** The entries of [params] that depend on the choice of the segment; the
    others copy or rescale columns of the row. *)
Record Params (T : Type) : Type := mkParams {
  closest_waypoints : list Z;
  closest_point : T * T;
}.

Arguments mkParams {T} _ _.
Arguments closest_waypoints {T} _.
Arguments closest_point {T} _.

(** [a.tolist() == b.tolist()] for two points. *)
Definition same_point {T} `{Coordinate T} (a b : T * T) : bool :=
  (coord_eqb a.1 b.1 && coord_eqb a.2 b.2)%bool.

(** [df_to_params(df_row, waypoints)], from the columns
    [closest_waypoint], [x] and [y] of the row. *)
Definition df_to_params {T} `{Coordinate T} `{GeometryUtils T}
  (closest_waypoint : Z) (x y : T) (waypoints : list (T * T))
  : result (Params T) :=
  let waypoint := closest_waypoint in
  let before := (waypoint - 1)%Z in
  at_waypoint ← py_index waypoints waypoint;
  at_before ← py_index waypoints before;
  let before := if same_point at_waypoint at_before
                then (before - 1)%Z else before in
  let after := ((waypoint + 1) `mod` Z.of_nat (length waypoints))%Z in
  at_waypoint ← py_index waypoints waypoint;
  at_after ← py_index waypoints after;
  let after := if same_point at_waypoint at_after
               then ((after + 1) `mod` Z.of_nat (length waypoints))%Z
               else after in
  l1 ← py_index waypoints before;
  l2 ← py_index waypoints waypoint;
  let closest_point := get_a_point_on_a_line_closest_to_point l1 l2 (x, y) in
  l1 ← py_index waypoints before;
  l2 ← py_index waypoints waypoint;
  if is_point_roughly_on_the_line l1 l2 closest_point.1 closest_point.2
  then Ok (mkParams [before; waypoint] closest_point)
  else
    l1 ← py_index waypoints waypoint;
    l2 ← py_index waypoints after;
    Ok (mkParams [waypoint; after]
          (get_a_point_on_a_line_closest_to_point l1 l2 (x, y))).

End NewRewardUtils.

(** *** Geometry in exact arithmetic *)

#[global] Instance Q_coordinate : Coordinate Q := {| coord_eqb := Qeq_bool |}.

(** Modelled from the spec: [get_a_point_on_a_line_closest_to_point], which
    is defined in [deepracer/tracks/track_utils.py], outside the sources at
    hand. It is the perpendicular projection of [p] on the line through
    [l1] and [l2]; on a degenerate line it is [l1]. *)
Definition Q_closest_point_on_line (l1 l2 p : Q * Q) : Q * Q :=
  let dx := (l2.1 - l1.1)%Q in
  let dy := (l2.2 - l1.2)%Q in
  let t := (((p.1 - l1.1) * dx + (p.2 - l1.2) * dy) / (dx * dx + dy * dy))%Q in
  ((l1.1 + t * dx)%Q, (l1.2 + t * dy)%Q).

(** Modelled from the spec: [is_point_roughly_on_the_line], defined in the
    same absent module. The point lies on the segment from [l1] to [l2]: it
    is on their line and within their bounding box. *)
Definition between (a b v : Q) : bool :=
  ((Qle_bool a v && Qle_bool v b) || (Qle_bool b v && Qle_bool v a))%bool.

Definition Q_point_on_segment (l1 l2 : Q * Q) (x y : Q) : bool :=
  (Qeq_bool ((l2.1 - l1.1) * (y - l1.2))%Q ((l2.2 - l1.2) * (x - l1.1))%Q
   && between l1.1 l2.1 x && between l1.2 l2.2 y)%bool.

#[global] Instance Q_geometry : GeometryUtils Q :=
  {| get_a_point_on_a_line_closest_to_point := Q_closest_point_on_line;
     is_point_roughly_on_the_line := Q_point_on_segment |}.

(** ** [ActionBreakdownUtils] *)

(** An argument passed by position to a builtin. *)
Inductive py_arg (A : Type) : Type :=
| ArgList (l : list A)
| ArgFunction (f : A -> float).

Arguments ArgList {A} l.
Arguments ArgFunction {A} f.

Fixpoint insert_sorted {A} (key : A -> float) (a : A) (l : list A) : list A :=
  match l with
  | [] => [a]
  | h :: t => if PrimFloat.ltb (key a) (key h) then a :: l
              else h :: insert_sorted key a t
  end.

(** [sorted(iterable, /, *, key=None, reverse=False)]: one argument by
    position, the others by keyword only. The sort is stable. *)
Definition sorted {A} (positional : list (py_arg A)) (key : option (A -> float))
  (default_key : A -> float) : result (list A) :=
  match positional with
  | [ArgList l] =>
      let k := default default_key key in
      Ok (fold_left (fun acc a => insert_sorted k a acc) (rev l) [])
  | _ => Raise TypeError
  end.

(** [keys > 0] and [keys < 0], a sequence against an int. *)
Definition seq_cmp_int {A} (l : A) (n : Z) : result bool := Raise TypeError.

(** What [df.groupby(["action", "steer", "throttle"]).keys()] evaluates to
    is pandas' business; the function is read for every outcome of it. *)
Class GroupKeys : Type := {
  groupby_keys : DataFrame -> result (list (float * float * float));
}.

Module ActionBreakdownUtils.

Definition determine_action_names `{Builtins} `{GroupKeys} (df : DataFrame)
  : result (list string) :=
  grouped_keys ← groupby_keys df;
  keys ← sorted [ArgList grouped_keys; ArgFunction (fun x => x.1.1)] None
            (fun x => x.1.1);
  result_mapM
    (fun key : float * float * float =>
       k1 ← py_index keys 1%Z;
       positive ← seq_cmp_int k1 0%Z;
       side ← (if positive : bool then Ok " left"
               else k1 ← py_index keys 1%Z;
                    negative ← seq_cmp_int k1 0%Z;
                    Ok (if negative : bool then " right" else ""));
       Ok ("A:" +:+ py_str key.1.1 +:+ " S:" +:+ py_str (PrimFloat.abs key.1.2)
           +:+ side +:+ ", T:" +:+ py_str key.2))
    keys.

End ActionBreakdownUtils.

(** A loop that carries a value from turn to turn; the first exception
    aborts it. *)
Fixpoint result_foldM {A B} (f : B -> A -> result B) (l : list A) (b : B)
  : result B :=
  match l with
  | [] => Ok b
  | a :: l' => b' ← f b a; result_foldM f l' b'
  end.

(** ** [PlottingUtils.plot_track]: the rewards on a grid *)

Module PlottingUtils.

(** [np.zeros((h, w))]: a two-dimensional array of floats, as its rows. *)
Definition np_zeros (size : Z * Z) : result (list (list float)) :=
  if ((size.1 <? 0) || (size.2 <? 0))%Z then Raise ValueError
  else Ok (replicate (Z.to_nat size.1) (replicate (Z.to_nat size.2) 0%float)).

(** An index into an axis of length [n]: a negative one counts from the
    end. *)
Definition axis_index (n i : Z) : result nat :=
  let j := if (i <? 0)%Z then (i + n)%Z else i in
  if ((0 <=? j) && (j <? n))%Z then Ok (Z.to_nat j) else Raise IndexError.

(** [track[y, x] = v] on an array of shape [size]. *)
Definition grid_set (size : Z * Z) (track : list (list float)) (y x : Z) (v : float)
  : result (list (list float)) :=
  i ← axis_index size.1 y;
  j ← axis_index size.2 x;
  Ok (alter (fun row => <[j := v]> row) i track).

(** One turn of the loop of [plot_track]: the reward of a row is written
    to the cell of its truncated, shifted and clipped coordinates. *)
Definition plot_track_turn (track_size : Z * Z) (x_shift y_shift : Z)
  (track : list (list float)) (row : Trace.t) : result (list (list float)) :=
  x ← (fun v => (v + x_shift)%Z) <$> float_to_Z (Trace.x row);
  y ← (fun v => (v + y_shift)%Z) <$> float_to_Z (Trace.y row);
  let reward := Trace.reward row in
  let y := if (track_size.1 <=? y)%Z then (track_size.1 - 1)%Z else y in
  let x := if (track_size.2 <=? x)%Z then (track_size.2 - 1)%Z else x in
  grid_set track_size track y x reward.

(** [plot_track(df, center_line, inner_border, outer_border, track_size,
    x_shift, y_shift)]. The figure and the borders that are drawn after the
    loop are matplotlib's and shapely's business: [print_border] stands for
    the outcome of those calls, which do not touch the array. *)
Definition plot_track (print_border : result unit) (df : DataFrame)
  (track_size : Z * Z) (x_shift y_shift : Z) : result (list (list float)) :=
  track ← np_zeros track_size;
  track ← result_foldM (plot_track_turn track_size x_shift y_shift)
            (traces df) track;
  _ ← print_border;
  Ok track.

End PlottingUtils.

(** ** Notions used to state the properties *)

(** A record with fifteen fields, each accepted by its cast, the episode
    number below [2^53] in size. *)
Definition well_formed `{Builtins} (d : string) : Prop :=
  exists f0 f1 f2 f3 f4 f5 f6 f7 f8 f9 f10 f11 f12 f13 f14 : string,
    Str.split "," (Str.rstrip d)
      = [f0; f1; f2; f3; f4; f5; f6; f7; f8; f9; f10; f11; f12; f13; f14]
    /\ (exists episode, py_int f0 = Ok episode /\ (Z.abs episode < 2 ^ 53)%Z)
    /\ is_ok (py_int f1) = true
    /\ is_ok (py_float f2) = true /\ is_ok (py_float f3) = true
    /\ is_ok (py_float f4) = true /\ is_ok (py_float f5) = true
    /\ is_ok (py_float f6) = true /\ is_ok (py_float f7) = true
    /\ is_ok (py_float f8) = true /\ is_ok (py_float f11) = true
    /\ is_ok (py_int f12) = true /\ is_ok (py_float f13) = true
    /\ is_ok (py_Decimal f14) = true.

(** The row [r] holds the fields of the record [d], each under its cast,
    the coordinates a hundredfold. *)
Definition row_of_record `{Builtins} (d : string) (r : Trace.t) : Prop :=
  exists (f0 f1 f2 f3 f4 f5 f6 f7 f8 f9 f10 f11 f12 f13 f14 : string)
         (vx vy : float),
    Str.split "," (Str.rstrip d)
      = [f0; f1; f2; f3; f4; f5; f6; f7; f8; f9; f10; f11; f12; f13; f14]
    /\ py_int f0 = Ok (Trace.episode r)
    /\ py_int f1 = Ok (Trace.steps r)
    /\ py_float f2 = Ok vx /\ Trace.x r = PrimFloat.mul 100 vx
    /\ py_float f3 = Ok vy /\ Trace.y r = PrimFloat.mul 100 vy
    /\ py_float f4 = Ok (Trace.yaw r)
    /\ py_float f5 = Ok (Trace.steer r)
    /\ py_float f6 = Ok (Trace.throttle r)
    /\ py_float f7 = Ok (Trace.action r)
    /\ py_float f8 = Ok (Trace.reward r)
    /\ Trace.done r = (if Str.contains "False" f9 then 0%Z else 1%Z)
    /\ Trace.on_track r = f10
    /\ py_float f11 = Ok (Trace.progress r)
    /\ py_int f12 = Ok (Trace.closest_waypoint r)
    /\ py_float f13 = Ok (Trace.track_len r)
    /\ py_Decimal f14 = Ok (Trace.timestamp r).

(** The key of a row under the grouping columns [firstgroup] and
    [episode]. *)
Definition key_of (firstgroup : Trace.t -> Z) (r : Trace.t) : key :=
  (firstgroup r, Trace.episode r).

(** The groups of a table: its distinct keys in ascending order. *)
Definition group_keys (firstgroup : Trace.t -> Z) (df : DataFrame) : list key :=
  sorted_keys (map (key_of firstgroup) (traces df)).

(** The rows of the group [k], in table order. *)
Definition group_traces (firstgroup : Trace.t -> Z) (k : key) (df : DataFrame)
  : list Trace.t :=
  List.filter (fun r => key_eqb (key_of firstgroup r) k) (traces df).

(** The table with its [new_reward] column, the [reward] column standing
    in for a missing one. *)
Definition rewarded (df : DataFrame) : list (Trace.t * float) :=
  match df with
  | Frame rows => map (fun r => (r, Trace.reward r)) rows
  | FrameNewReward rows => rows
  end.

(** The [new_reward] values of the group [k]. *)
Definition group_new_rewards (firstgroup : Trace.t -> Z) (k : key)
  (df : DataFrame) : list float :=
  map snd (List.filter (fun p => key_eqb (key_of firstgroup p.1) k)
             (rewarded df)).

(** The order of the group keys: first column, then second. *)
Definition key_lt (a b : key) : Prop :=
  (a.1 < b.1)%Z \/ (a.1 = b.1 /\ (a.2 < b.2)%Z).

(** A frame with one row per key. *)
Definition tabulate {A} (f : key -> A) (ks : list key) : list (key * A) :=
  map (fun k => (k, f k)) ks.

(** The label of an episode among the episodes [es] of the aggregate. *)
Definition cut_label (es : list Z) (e : Z) : string :=
  default "" (AnalysisUtils.quintile_labels
                !! cut_code (np_min_int es) (np_max_int es) 5 e).

(** The aggregate of the group [k] as the contract words it: the maximum
    of [steps], the first [closest_waypoint], the maximum of [progress],
    the range of [timestamp] as a float, the mean of [throttle], the sums
    of [new_reward] and [reward], the two projections to a complete lap,
    the label of the episode, and the latest timestamp as a date. *)
Definition episode_aggregate `{Numpy} (firstgroup : Trace.t -> Z)
  (add_timestamp is_eval : bool) (df : DataFrame) (k : key) : Agg.t :=
  let g := group_traces firstgroup k df in
  let progress := np_max (map Trace.progress g) in
  let time := float_of_decimal (np_ptp (map Trace.timestamp g)) in
  let reward := np_sum (map Trace.reward g) in
  {| Agg.group := k.1;
     Agg.episode := k.2;
     Agg.steps := np_max_int (map Trace.steps g);
     Agg.start_at := first (map Trace.closest_waypoint g);
     Agg.progress := progress;
     Agg.time := time;
     Agg.new_reward :=
       if is_eval then None
       else Some (np_sum (group_new_rewards firstgroup k df));
     Agg.throttle := np_mean (map Trace.throttle g);
     Agg.reward := if is_eval then None else Some reward;
     Agg.time_if_complete := PrimFloat.div (PrimFloat.mul time 100) progress;
     Agg.reward_if_complete :=
       if is_eval then None
       else Some (PrimFloat.div (PrimFloat.mul reward 100) progress);
     Agg.quintile :=
       if is_eval then None
       else Some (cut_label (map snd (group_keys firstgroup df)) k.2);
     Agg.timestamp :=
       if add_timestamp
       then match pd_to_datetime
                    (float_of_decimal (np_max_dec (map Trace.timestamp g))) with
            | Ok t => Some t
            | Raise _ => None
            end
       else None |}.

(** [simulation_agg] as the contract words it: one aggregate per group,
    unless the binning or the conversion to dates raises. *)
Definition aggregate_table `{Numpy} (firstgroup : Trace.t -> Z)
  (add_timestamp is_eval : bool) (df : DataFrame) : result (list Agg.t) :=
  let ks := group_keys firstgroup df in
  _ ← (if is_eval then Ok []
       else pd_cut (map snd ks) 5 AnalysisUtils.quintile_labels);
  _ ← (if add_timestamp
       then result_mapM
              (fun k => pd_to_datetime
                          (float_of_decimal
                             (np_max_dec (map Trace.timestamp
                                            (group_traces firstgroup k df)))))
              ks
       else Ok []);
  Ok (map (episode_aggregate firstgroup add_timestamp is_eval df) ks).

(** The caller's table and the output after a call of [simulation_agg]. *)
Definition after_agg (is_eval : bool) (e : AnalysisUtils.env)
  : AnalysisUtils.env :=
  if is_eval then e
  else match AnalysisUtils.panda e with
       | Frame rows =>
           {| AnalysisUtils.panda := FrameNewReward (rewarded (Frame rows));
              AnalysisUtils.printed :=
                AnalysisUtils.printed e
                ++ ["new reward not found, using reward as its values"] |}
       | FrameNewReward _ => e
       end.

(** The line [line] holds the record [rec]: the text that follows the first
    ["SIM_TRACE_LOG:"] of the line and runs to the next tab, or to the end
    of the line when no tab follows. *)
Definition record_of_line (line rec : string) : Prop :=
  exists pre tail : string,
    line = pre +:+ "SIM_TRACE_LOG:" +:+ rec +:+ tail
    /\ (tail = "" \/ exists rest, tail = Str.tab +:+ rest)
    /\ Str.contains "SIM_TRACE_LOG:" (pre +:+ "SIM_TRACE_LOG") = false
    /\ Str.contains "SIM_TRACE_LOG:" rec = false
    /\ Str.contains Str.tab rec = false.

(** The records of the lines of a file: a line without the marker
    ["SIM_TRACE_LOG"] gives none. *)
Inductive trace_lines : list string -> list string -> Prop :=
| trace_lines_nil : trace_lines [] []
| trace_lines_skip (line : string) (lines recs : list string) :
    Str.contains "SIM_TRACE_LOG" line = false ->
    trace_lines lines recs -> trace_lines (line :: lines) recs
| trace_lines_take (line rec : string) (lines recs : list string) :
    record_of_line line rec ->
    trace_lines lines recs -> trace_lines (line :: lines) (rec :: recs).

(** Where the coordinate [v] lands on an axis of [n] cells: on the last cell
    when it is past the axis, on its own cell when it is on the axis, on the
    cell counted from the end when it is negative, and nowhere when it is
    more than [n] below zero. *)
Definition axis_cell (n v : Z) : option nat :=
  if (n <=? v)%Z then (if (0 <? n)%Z then Some (Z.to_nat (n - 1)) else None)
  else if (0 <=? v)%Z then Some (Z.to_nat v)
  else if (- n <=? v)%Z then Some (Z.to_nat (v + n))
  else None.

(** The cell of the grid, row and column, that [plot_track] writes the
    reward of a row of the table to. *)
Definition track_cell (track_size : Z * Z) (x_shift y_shift : Z)
  (row : Trace.t) : option (nat * nat) :=
  match float_to_Z (Trace.x row), float_to_Z (Trace.y row) with
  | Ok x, Ok y =>
      i ← axis_cell track_size.1 (y + y_shift);
      j ← axis_cell track_size.2 (x + x_shift);
      Some (i, j)
  | _, _ => None
  end.

(** A grid of [h] rows of [w] cells. *)
Definition grid_shape (h w : nat) (track : list (list float)) : Prop :=
  length track = h /\ Forall (fun r => length r = w) track.

(** The value of the cell in row [i] and column [j]. *)
Definition grid_cell (track : list (list float)) (i j : nat) : option float :=
  row ← track !! i; row !! j.

(** ** Sample logs and tables *)

Definition sample_record (episode : string) : string :=
  episode +:+ ",1,2.5,3.25,0.5,0.25,1.5,3,1.0,False,True,0.5,7,17.5,1591234567.5"
  +:+ Str.newline.

Definition sample_data : list string :=
  ["0,0,0,0,0,0,0,0,0,False,True,0,0,0,0"; "0,0,0,0,0,0,0,0,0,False,True,0,0,0,0";
   sample_record "0"; sample_record "19"; sample_record "20"].

Definition sample_log_line : string :=
  "SIM_TRACE_LOG:0,1,2.5,3.25,0.5,0.25,1.5,3,1.0,False,True,0.5,7,17.5,1591234567.5"
  +:+ Str.tab +:+ "x" +:+ Str.newline.

Definition sample_fs : gmap string (list string) :=
  {[ "sim.log" := ["starting" +:+ Str.newline; sample_log_line] ]}.

Definition empty_world : SimulationLogsIO.world :=
  SimulationLogsIO.mkWorld [] [].

(** A row of a sample table: its episode, step, progress, closest
    waypoint and timestamp; the reward is 2 and the throttle 1.5. *)
Definition sample_row (episode steps : Z) (progress : float) (waypoint : Z)
  (timestamp : Decimal) : Trace.t :=
  {| Trace.iteration := Z.quot episode 20 + 1; Trace.episode := episode;
     Trace.steps := steps; Trace.x := 0; Trace.y := 0; Trace.yaw := 0;
     Trace.steer := 0; Trace.throttle := 1.5; Trace.action := 0;
     Trace.reward := 2; Trace.done := 0; Trace.on_track := "True";
     Trace.progress := progress; Trace.closest_waypoint := waypoint;
     Trace.track_len := 17; Trace.timestamp := timestamp |}.

(** Episode 0 has two rows, with progress 50 and 80 at the times 100.0
    and 103.5; episode 1 makes no progress. *)
Definition sample_table : DataFrame :=
  Frame [sample_row 0 1 50 3 (mkDecimal 1000 (-1));
         sample_row 1 1 0 9 (mkDecimal 2000 (-1));
         sample_row 0 2 80 4 (mkDecimal 1035 (-1))].

(** One row for each of the episodes 0, 1, 2, 3 and 10. *)
Definition uneven_table : DataFrame :=
  Frame (map (fun e => sample_row e 1 10 0 (mkDecimal 5 0)) [0; 1; 2; 3; 10]%Z).

Definition sample_env (df : DataFrame) : AnalysisUtils.env :=
  {| AnalysisUtils.panda := df; AnalysisUtils.printed := [] |}.



(** Three waypoints on a line, and a car between the first two. *)
Definition straight_track : list (Q * Q) := [(0, 0); (100, 0); (200, 0)]%Q.



(** * Properties *)

(** ** The outcome monad *)

Lemma bind_Ok {A B} (f : A -> result B) (m : result A) (b : B) :
  m ≫= f = Ok b <-> exists a, m = Ok a /\ f a = Ok b.
Proof.
  destruct m as [a|e]; simpl; split.
  - intros Hf. exists a. split; [reflexivity | exact Hf].
  - intros (a' & Ha & Hf). injection Ha as ->. exact Hf.
  - discriminate.
  - intros (a' & Ha & _). discriminate.
Qed.

Lemma fmap_Ok {A B} (f : A -> B) (m : result A) (b : B) :
  f <$> m = Ok b <-> exists a, m = Ok a /\ b = f a.
Proof.
  destruct m as [a|e]; simpl; split.
  - intros [= <-]. exists a. split; reflexivity.
  - intros (a' & [= <-] & ->). reflexivity.
  - discriminate.
  - intros (a' & Ha & _). discriminate.
Qed.

Lemma is_ok_true {A} (m : result A) : is_ok m = true -> exists a, m = Ok a.
Proof. destruct m as [a|e]; [exists a; reflexivity | discriminate]. Qed.

(** Peels the successful steps off a chain of binds. *)
Ltac ok_inv H :=
  repeat match type of H with
         | _ ≫= _ = Ok _ =>
             let a := fresh "v" in
             let Ha := fresh "Hv" in
             apply bind_Ok in H as (a & Ha & H)
         end.

(** ** The log loader *)

Section Loader.
Import SimulationLogsIO.
Variable fs : gmap string (list string).

(** Appending to one list object leaves the others alone. *)
Lemma list_append_other (l data : loc) (s : string) (w : world) :
  l <> data -> heap (list_append l s w).2 !! data = heap w !! data.
Proof. intros Hne. simpl. apply list_lookup_alter_ne. exact Hne. Qed.

Lemma for_each_other {A} (data : loc) (body : A -> prog world unit)
  (l : list A) (w : world) :
  (forall a w0, heap (body a w0).2 !! data = heap w0 !! data) ->
  heap (for_each l body w).2 !! data = heap w !! data.
Proof.
  intros Hbody. revert w. induction l as [|a l IH]; intros w.
  - reflexivity.
  - cbn [for_each]. unfold prog_bind.
    specialize (Hbody a w).
    destruct (body a w) as [[u|err] w1]; cbn [snd] in *.
    + rewrite IH. exact Hbody.
    + exact Hbody.
Qed.

Lemma append_trace_line_other (l data : loc) (line : string) (w : world) :
  l <> data ->
  heap ((if Str.contains "SIM_TRACE_LOG" line
         then (parts <- lift (trace_parts line) ;;
               list_append l (Str.join "," parts))%prog
         else prog_ret tt) w).2 !! data
  = heap w !! data.
Proof.
  intros Hne. destruct (Str.contains "SIM_TRACE_LOG" line); [|reflexivity].
  unfold prog_bind, lift.
  destruct (trace_parts line) as [parts|err]; [|reflexivity].
  apply list_append_other. exact Hne.
Qed.

(** The defect: handed a list that is still empty, [load_single_file]
    takes it for a missing one, fills a fresh list and leaves the list it
    was handed empty. *)
Lemma load_single_file_leaves_empty (fname : string) (data : loc) (w : world) :
  heap w !! data = Some [] ->
  heap (load_single_file fs fname (Some data) w).2 !! data = Some [].
Proof.
  intros Hdata. pose proof (lookup_lt_Some _ _ _ Hdata) as Hlt.
  assert ((heap w ++ [[]]) !! data = Some []) as Hdata'.
  { rewrite lookup_app_l by exact Hlt. exact Hdata. }
  unfold load_single_file, truth.
  cbv [prog_bind list_read prog_ret new_list lift].
  rewrite Hdata. cbn [default from_option id heap stdout].
  destruct (open_readlines fs fname) as [lines|err]; [|exact Hdata'].
  match goal with
  | |- context [for_each lines ?body ?w0] =>
      pose proof (for_each_other data body lines w0) as Hfor;
      destruct (for_each lines body w0) as [[[]|err] w1]
  end; cbn [snd] in *;
    (rewrite Hfor; [exact Hdata'|]);
    intros line w0; apply append_trace_line_other; lia.
Qed.

Lemma load_rollovers_leaves_empty (fuel : nat) (fname : string) (data : loc)
  (i : nat) (w w' : world) (r : result nat) :
  heap w !! data = Some [] ->
  load_rollovers fuel fs fname data i w = Some (r, w') ->
  heap w' !! data = Some [].
Proof.
  revert i w. induction fuel as [|fuel IH]; intros i w Hdata Hload; simpl in Hload.
  - discriminate.
  - destruct (isfile fs (rollover_name fname i)).
    + pose proof (load_single_file_leaves_empty (rollover_name fname i) data w
                    Hdata) as Hstep.
      destruct (load_single_file fs (rollover_name fname i) (@Some loc data) w)
        as [[l|err] w1]; cbn [snd] in Hstep.
      * eapply IH; eassumption.
      * simplify_eq. exact Hstep.
    + simplify_eq. exact Hdata.
Qed.

(** Whatever the files hold, [load_data] returns no line at all. *)
Lemma load_data_returns_nothing (fname : string) (w w' : world)
  (lines : list string) :
  load_data fs fname w = Some (Ok lines, w') -> lines = [].
Proof.
  unfold load_data, load_data_fuel, new_list. cbn [heap stdout].
  set (data := length (heap w)).
  set (w0 := {| heap := heap w ++ [[]]; stdout := stdout w |}).
  assert (heap w0 !! data = Some []) as Hdata.
  { apply list_lookup_middle. reflexivity. }
  destruct (load_rollovers _ fs fname data 1 w0) as [[[i|err] w1]|] eqn:Hroll;
    [|intros [=]..].
  pose proof (load_rollovers_leaves_empty _ _ _ _ _ _ _ Hdata Hroll) as Hdata1.
  pose proof (load_single_file_leaves_empty fname data w1 Hdata1) as Hbase.
  unfold prog_bind at 1.
  destruct (load_single_file fs fname (@Some loc data) w1) as [[l|err] w2];
    cbn [snd] in Hbase; [|intros [=]].
  unfold prog_bind, list_read.
  destruct (1 <? i)%nat; cbn [print modify prog_ret heap stdout];
    rewrite Hbase; intros [= <- _]; reflexivity.
Qed.

(** *** The scan for rollover files ends *)

Lemma load_rollovers_out_of_fuel (fuel : nat) (fname : string) (data : loc)
  (i : nat) (w : world) :
  load_rollovers fuel fs fname data i w = None ->
  forall j, (i <= j < i + fuel)%nat -> is_Some (fs !! rollover_name fname j).
Proof.
  revert i w. induction fuel as [|fuel IH]; intros i w Hload j Hj; [lia|].
  simpl in Hload. unfold isfile in Hload.
  destruct (bool_decide (is_Some (fs !! rollover_name fname i))) eqn:Hfile;
    [|discriminate].
  apply bool_decide_eq_true in Hfile.
  destruct (decide (j = i)) as [->|Hne]; [exact Hfile|].
  destruct (load_single_file fs (rollover_name fname i) (@Some loc data) w)
    as [[l|err] w1]; [|discriminate].
  apply (IH (S i) w1 Hload). lia.
Qed.

Lemma load_data_fuel_enough (fname : string) (w : world) :
  is_Some (load_data fs fname w).
Proof.
  unfold load_data, load_data_fuel, new_list.
  destruct (load_rollovers _ _ _ _ _ _) as [[[i|err] w1]|] eqn:Hroll;
    [eexists; reflexivity..|].
  exfalso.
  pose proof (load_rollovers_out_of_fuel _ _ _ _ _ Hroll) as Hfiles.
  set (names := rollover_name fname <$> seq 1 (S (size fs))).
  assert (NoDup names) as Hnd.
  { apply (NoDup_fmap_2 _). apply NoDup_seq. }
  assert (list_to_set names ⊆ (dom fs : gset string)) as Hsub.
  { intros name Hname. apply elem_of_list_to_set in Hname.
    apply list_elem_of_fmap in Hname as (j & -> & Hj).
    apply elem_of_seq in Hj. apply elem_of_dom. apply Hfiles. lia. }
  apply subseteq_size in Hsub.
  rewrite size_list_to_set, size_dom in Hsub by exact Hnd.
  unfold names in Hsub. rewrite length_fmap, length_seq in Hsub. lia.
Qed.

End Loader.

(** C2, where the code departs from it: the base file ["sim.log"] holds one
    trace line and no rollover file exists, so the loader ought to return
    that line reduced to its fields. [load_single_file] called on its own
    does extract the line; [load_data] returns the empty list, the line
    having gone into a second list object. *)
Theorem load_data_drops_trace_lines :
  (SimulationLogsIO.load_single_file sample_fs "sim.log" None empty_world).2
  = SimulationLogsIO.mkWorld
      [["0,1,2.5,3.25,0.5,0.25,1.5,3,1.0,False,True,0.5,7,17.5,1591234567.5"]]
      []
  /\ SimulationLogsIO.load_data sample_fs "sim.log" empty_world
     = Some (Ok [],
             SimulationLogsIO.mkWorld
               [[]; ["0,1,2.5,3.25,0.5,0.25,1.5,3,1.0,False,True,0.5,7,17.5,1591234567.5"]]
               []).
Proof. split; vm_compute; reflexivity. Qed.

(** ** True division of ints

    Below [2^53] the rounding of the quotient to binary64 never reaches
    the next integer, so that [int(a / b)] is the quotient truncated toward
    zero. *)

Section TrueDivision.
Local Open Scope Z_scope.

Lemma digits2_size (p : positive) : digits2_pos p = Pos.size p.
Proof. induction p; simpl; congruence. Qed.

Lemma digits2_bounds (p : positive) :
  2 ^ (Zpos (digits2_pos p) - 1) <= Zpos p < 2 ^ Zpos (digits2_pos p).
Proof.
  rewrite digits2_size. split.
  - pose proof (Pos.size_le p) as Hle.
    assert (Zpos (2 ^ Pos.size p) <= Zpos p~0) as Hz by exact Hle.
    rewrite Pos2Z.inj_pow in Hz.
    replace (Zpos (Pos.size p)) with (Zpos (Pos.size p) - 1 + 1) in Hz by lia.
    rewrite Z.pow_add_r in Hz by lia. lia.
  - pose proof (Pos.size_gt p) as Hgt.
    assert (Zpos p < Zpos (2 ^ Pos.size p)) as Hz by exact Hgt.
    rewrite Pos2Z.inj_pow in Hz. exact Hz.
Qed.

Lemma digits2_unique (p : positive) (k : Z) :
  2 ^ (k - 1) <= Zpos p < 2 ^ k -> Zpos (digits2_pos p) = k.
Proof.
  intros [Hlo Hhi]. pose proof (digits2_bounds p) as [Hlo' Hhi'].
  assert (0 < k) as Hk.
  { destruct (Z.lt_trichotomy 0 k) as [|[<-|Hneg]]; [assumption| |].
    - simpl in Hhi. lia.
    - rewrite Z.pow_neg_r in Hhi by lia. lia. }
  destruct (Z.lt_trichotomy (Zpos (digits2_pos p)) k) as [Hlt|[Heq|Hgt]];
    [|exact Heq|].
  - assert (2 ^ Zpos (digits2_pos p) <= 2 ^ (k - 1)) by (apply Z.pow_le_mono_r; lia).
    lia.
  - assert (2 ^ k <= 2 ^ (Zpos (digits2_pos p) - 1)) by (apply Z.pow_le_mono_r; lia).
    lia.
Qed.

Lemma fexp_normal (e : Z) : -1021 <= e -> fexp 53 1024 e = e - 53.
Proof. intros He. unfold fexp, emin. lia. Qed.

Lemma shr_fexp_keep (p : positive) (e : Z) (l : location) :
  Zpos (digits2_pos p) = 53 -> -1074 <= e ->
  shr_fexp 53 1024 (Zpos p) e l = (shr_record_of_loc (Zpos p) l, e).
Proof.
  intros Hd He. unfold shr_fexp. cbn [Zdigits2]. rewrite Hd.
  rewrite fexp_normal by lia.
  replace (53 + e - 53 - e) with 0 by lia. reflexivity.
Qed.

Lemma shr_fexp_shift (p : positive) (e : Z) (l : location) :
  Zpos (digits2_pos p) = 54 -> -1075 <= e ->
  shr_fexp 53 1024 (Zpos p) e l = (shr_1 (shr_record_of_loc (Zpos p) l), e + 1).
Proof.
  intros Hd He. unfold shr_fexp. cbn [Zdigits2]. rewrite Hd.
  rewrite fexp_normal by lia.
  replace (54 + e - 53 - e) with 1 by lia. reflexivity.
Qed.

Lemma loc_of_shr_record_of_loc (m : Z) (l : location) :
  loc_of_shr_record (shr_record_of_loc m l) = l.
Proof. destruct l as [|[]]; reflexivity. Qed.

Lemma shr_m_record_of_loc (m : Z) (l : location) :
  shr_m (shr_record_of_loc m l) = m.
Proof. destruct l as [|[]]; reflexivity. Qed.

Lemma rne_bounds (m : Z) (l : location) :
  m <= round_nearest_even m l <= m + 1.
Proof. destruct l as [|[]]; simpl; try destruct (Z.even m); lia. Qed.

(** Rounding after dropping one bit: the half, or the half rounded up when
    the dropped bit was set. *)
Lemma rne_shift_bounds (p : positive) (l : location) :
  let mrs := shr_1 (shr_record_of_loc (Zpos p) l) in
  let m := round_nearest_even (shr_m mrs) (loc_of_shr_record mrs) in
  Zpos p <= 2 * m + 1 /\ 2 * m <= Zpos p + 1.
Proof.
  destruct p as [p|p|]; destruct l as [|[]]; cbn;
    try destruct (Z.even (Zpos p)); try destruct p; lia.
Qed.

Lemma div_pow2_shift (m n : Z) :
  0 <= n -> 2 * m / 2 ^ (n + 1) = m / 2 ^ n.
Proof.
  intros Hn. rewrite Z.pow_add_r, Z.pow_1_r by lia.
  rewrite (Z.mul_comm (2 ^ n) 2).
  apply Z.div_mul_cancel_l; [apply Z.pow_nonzero|]; lia.
Qed.

(** The last step of the rounding: a mantissa of 53 bits stays, the
    mantissa [2^53] is renormalised; truncation sees the same number. *)
Lemma finish_trunc (sx : bool) (m : Z) (e : Z) :
  2 ^ 52 <= m <= 2 ^ 53 -> -1074 <= e <= 0 ->
  SF_trunc (let '(mrs, e') := shr_fexp 53 1024 m e loc_Exact in
           match shr_m mrs with
           | Z0 => S754_zero sx
           | Zpos m' => if e' <=? 1024 - 53 then S754_finite sx m' e'
                        else S754_infinity sx
           | Zneg _ => S754_nan
           end)
  = Ok (if sx then - (m / 2 ^ (- e)) else m / 2 ^ (- e)).
Proof.
  intros Hm He. destruct m as [|p|p]; [lia| |lia].
  destruct (Pos.eq_dec p 9007199254740992%positive) as [->|Hne].
  - rewrite shr_fexp_shift by (reflexivity || lia).
    cbn [shr_record_of_loc shr_1 shr_m].
    destruct (Z.leb_spec (e + 1) (1024 - 53)); [|lia].
    cbn [SF_trunc].
    match goal with
    | |- Ok (if sx then - ?v else ?v) = Ok (if sx then - ?w else ?w) =>
        assert (v = w) as ->; [|reflexivity]
    end.
    destruct (Z.leb_spec 0 (e + 1)).
    + assert (e = 0 \/ e = -1) as [->| ->] by lia; reflexivity.
    + replace (- e) with (- (e + 1) + 1) by lia.
      symmetry.
      exact (div_pow2_shift 4503599627370496 (- (e + 1)) ltac:(lia)).
  - assert (Zpos p <> 9007199254740992) as Hne' by congruence.
    assert (Zpos (digits2_pos p) = 53) as Hd.
    { apply digits2_unique. change (53 - 1) with 52. lia. }
    rewrite shr_fexp_keep by (exact Hd || lia).
    cbn [shr_record_of_loc shr_m].
    destruct (Z.leb_spec e (1024 - 53)); [|lia].
    cbn [SF_trunc].
    match goal with
    | |- Ok (if sx then - ?v else ?v) = Ok (if sx then - ?w else ?w) =>
        assert (v = w) as ->; [|reflexivity]
    end.
    destruct (Z.leb_spec 0 e).
    + assert (e = 0) as -> by lia.
      change (- 0) with 0. rewrite !Z.pow_0_r, Z.div_1_r. lia.
    + reflexivity.
Qed.

(** The quotient of [a * T] by [b], for a scale [T] above [b], stays two
    below the next multiple of [T] past [(a / b) * T]. *)
Lemma scaled_quotient_bounds (a b T q r : Z) :
  0 < b < T -> 0 <= a -> a * T = b * q + r -> 0 <= r < b ->
  (a / b) * T <= q /\ q + 2 <= (a / b + 1) * T.
Proof.
  intros Hb Ha Hq Hr.
  pose proof (Z.div_mod a b ltac:(lia)) as Hdm.
  pose proof (Z.mod_pos_bound a b ltac:(lia)) as Hmod.
  pose proof (Z.div_pos a b Ha ltac:(lia)) as HQ.
  set (Q := a / b) in *. set (R := a mod b) in *.
  split.
  - destruct (Z_le_gt_dec (Q * T) q) as [|Hgt]; [assumption|exfalso].
    assert (b * (q + 1) <= b * (Q * T)) by (apply Z.mul_le_mono_nonneg_l; lia).
    assert (b * (Q * T) <= a * T) by nia.
    lia.
  - destruct (Z_le_gt_dec (q + 2) ((Q + 1) * T)) as [|Hgt]; [assumption|exfalso].
    assert (b * ((Q + 1) * T) <= b * (q + 1)) by (apply Z.mul_le_mono_nonneg_l; lia).
    assert ((a + 1) * T <= b * ((Q + 1) * T)) by nia.
    nia.
Qed.

Lemma digits2_le (p : positive) (n : Z) :
  Zpos p < 2 ^ n -> Zpos (digits2_pos p) <= n.
Proof.
  intros Hp. pose proof (digits2_bounds p) as [Hlo _].
  destruct (Z_le_gt_dec (Zpos (digits2_pos p)) n) as [|Hgt]; [assumption|exfalso].
  assert (0 <= n).
  { destruct (Z_le_gt_dec 0 n); [assumption|].
    rewrite Z.pow_neg_r in Hp by lia. lia. }
  assert (2 ^ n <= 2 ^ (Zpos (digits2_pos p) - 1)) by (apply Z.pow_le_mono_r; lia).
  lia.
Qed.

(** Two positive integers below [2^53]: the correctly rounded quotient
    truncates to the integer quotient. *)
Lemma SFdiv_trunc (sx sy : bool) (pa pb : positive) :
  Zpos pa < 2 ^ 53 -> Zpos pb < 2 ^ 53 ->
  SF_trunc (SFdiv 53 1024 (S754_finite sx pa 0) (S754_finite sy pb 0))
  = Ok (if xorb sx sy then - (Zpos pa / Zpos pb) else Zpos pa / Zpos pb).
Proof.
  intros Ha Hb.
  pose proof (digits2_bounds pa) as Hda. pose proof (digits2_bounds pb) as Hdb.
  pose proof (digits2_le pa 53 Ha) as Hda53.
  pose proof (digits2_le pb 53 Hb) as Hdb53.
  unfold SFdiv, SFdiv_core_binary. cbn [Zdigits2].
  set (d1 := Zpos (digits2_pos pa)) in *. set (d2 := Zpos (digits2_pos pb)) in *.
  assert (0 < d1) as Hd1 by (subst d1; lia).
  assert (0 < d2) as Hd2 by (subst d2; lia).
  set (s := 53 + d2 - d1).
  assert (Z.min (fexp 53 1024 (d1 + 0 - (d2 + 0))) (0 - 0) = - s) as ->.
  { unfold fexp, emin. lia. }
  replace (0 - 0 - - s) with s by lia.
  assert (d2 <= s) as Hs by lia.
  destruct s as [|ps|ps] eqn:Es; [lia| |lia]. rewrite <- Es in *.
  rewrite Z.shiftl_mul_pow2 by lia.
  pose proof (Z_div_mod (Zpos pa * 2 ^ s) (Zpos pb) ltac:(lia)) as Hdiv.
  destruct (Z.div_eucl (Zpos pa * 2 ^ s) (Zpos pb)) as [q r].
  destruct Hdiv as [Hq Hr].
  generalize (new_location (Zpos pb) r). intros l.
  set (T := 2 ^ s) in *.
  assert (Zpos pb < T) as HbT.
  { assert (2 ^ d2 <= T) by (apply Z.pow_le_mono_r; lia). lia. }
  destruct (scaled_quotient_bounds (Zpos pa) (Zpos pb) T q r) as [Hlo Hhi];
    try lia.
  set (Q := Zpos pa / Zpos pb) in *.
  assert (2 ^ 52 <= q < 2 ^ 54) as Hq52.
  { assert (2 ^ 52 * 2 ^ d2 = 2 ^ (d1 - 1) * T) as E1.
    { unfold T. rewrite <- !Z.pow_add_r by lia. f_equal. lia. }
    assert (2 ^ 54 * 2 ^ (d2 - 1) = 2 ^ d1 * T) as E2.
    { unfold T. rewrite <- !Z.pow_add_r by lia. f_equal. lia. }
    assert (2 ^ (d1 - 1) * T <= Zpos pa * T) by (apply Z.mul_le_mono_nonneg_r; lia).
    assert (Zpos pa * T < 2 ^ d1 * T) by (apply Z.mul_lt_mono_pos_r; lia).
    split.
    - destruct (Z_le_gt_dec (2 ^ 52) q) as [|Hgt]; [assumption|exfalso].
      assert (Zpos pb * (q + 1) <= Zpos pb * 2 ^ 52) by (apply Z.mul_le_mono_nonneg_l; lia).
      assert (Zpos pb * 2 ^ 52 < 2 ^ d2 * 2 ^ 52) by (apply Z.mul_lt_mono_pos_r; lia).
      lia.
    - destruct (Z_le_gt_dec (2 ^ 54) q) as [Hge|]; [exfalso|lia].
      assert (Zpos pb * 2 ^ 54 <= Zpos pb * q) by (apply Z.mul_le_mono_nonneg_l; lia).
      assert (2 ^ (d2 - 1) * 2 ^ 54 <= Zpos pb * 2 ^ 54) by (apply Z.mul_le_mono_nonneg_r; lia).
      lia. }
  destruct q as [|pq|pq]; [lia| |lia].
  pose proof (digits2_bounds pq) as Hdq.
  assert (Zpos (digits2_pos pq) = 53 \/ Zpos (digits2_pos pq) = 54) as [Hd|Hd].
  { pose proof (digits2_le pq 54 ltac:(lia)).
    destruct (Z_le_gt_dec 53 (Zpos (digits2_pos pq))) as [|Hgt]; [lia|exfalso].
    assert (2 ^ Zpos (digits2_pos pq) <= 2 ^ 52) by (apply Z.pow_le_mono_r; lia).
    lia. }
  - unfold binary_round_aux.
    rewrite shr_fexp_keep by (exact Hd || lia).
    rewrite shr_m_record_of_loc, loc_of_shr_record_of_loc.
    pose proof (rne_bounds (Zpos pq) l) as Hm.
    rewrite Hd in Hdq.
    set (m := round_nearest_even (Zpos pq) l) in *.
    rewrite (finish_trunc _ m (- s)) by lia.
    rewrite Z.opp_involutive. fold T.
    assert (m / T = Q) as ->; [|reflexivity].
    symmetry. apply Z.div_unique with (r := m - Q * T); lia.
  - unfold binary_round_aux.
    rewrite shr_fexp_shift by (exact Hd || lia).
    pose proof (rne_shift_bounds pq l) as Hm. cbv zeta in Hm.
    rewrite Hd in Hdq.
    set (m := round_nearest_even _ _) in *.
    rewrite (finish_trunc _ m (- s + 1)) by lia.
    assert (T = 2 * 2 ^ (- (- s + 1))) as ET.
    { unfold T. replace s with (Z.succ (- (- s + 1))) at 1 by lia.
      apply Z.pow_succ_r. lia. }
    set (T' := 2 ^ (- (- s + 1))) in *.
    assert (m / T' = Q) as ->; [|reflexivity].
    symmetry. apply Z.div_unique with (r := m - Q * T'); nia.
Qed.

Lemma int_truediv_small (a b : Z) :
  Z.abs a < 2 ^ 53 -> Z.abs b < 2 ^ 53 -> b <> 0 ->
  int_truediv a b = Ok (Z.quot a b).
Proof.
  intros Ha Hb Hb0. unfold int_truediv, prec, emax.
  destruct (Z.eqb_spec b 0); [contradiction|].
  destruct a as [|pa|pa], b as [|pb|pb]; try contradiction;
    try reflexivity; cbn [Z2SF]; rewrite SFdiv_trunc by (simpl in *; lia);
    cbn [xorb]; f_equal.
  - symmetry. apply Z.quot_div_nonneg; lia.
  - change (Z.neg pb) with (- Z.pos pb). rewrite Z.quot_opp_r by lia.
    rewrite Z.quot_div_nonneg by lia. reflexivity.
  - change (Z.neg pa) with (- Z.pos pa). rewrite Z.quot_opp_l by lia.
    rewrite Z.quot_div_nonneg by lia. reflexivity.
  - change (Z.neg pa) with (- Z.pos pa). change (Z.neg pb) with (- Z.pos pb).
    rewrite Z.quot_opp_opp by lia.
    rewrite Z.quot_div_nonneg by lia. reflexivity.
Qed.

(** Past [2^53] the rounding shows, and past the floats the division
    fails. *)
Example int_truediv_rounds :
  int_truediv (2 ^ 53 + 1) 1 = Ok (2 ^ 53)
  /\ int_truediv (2 ^ 1024) 1 = Raise OverflowError
  /\ int_truediv 1 0 = Raise ZeroDivisionError.
Proof. repeat split; vm_compute; reflexivity. Qed.

End TrueDivision.

(** ** The tabular converter *)

Section Converter.
Context `{Builtins}.

Lemma parse_trace_iteration (epi : Z) (d : string) (r : Trace.t) :
  SimulationLogsIO.parse_trace epi d = Ok r ->
  (Z.abs epi < 2 ^ 53)%Z -> (Z.abs (Trace.episode r) < 2 ^ 53)%Z ->
  epi <> 0%Z /\ Trace.iteration r = (Z.quot (Trace.episode r) epi + 1)%Z.
Proof.
  unfold SimulationLogsIO.parse_trace. intros Hp. ok_inv Hp.
  injection Hp as <-. simpl. intros Hepi Hepisode.
  apply fmap_Ok in Hv14 as (q & Hq & ->).
  assert (epi <> 0%Z) as Hepi0.
  { intros ->. discriminate Hq. }
  rewrite int_truediv_small in Hq by assumption.
  injection Hq as <-. split; [assumption | lia].
Qed.


Lemma py_index_nat {A} (l : list A) (n : nat) (a : A) :
  l !! n = Some a -> py_index l (Z.of_nat n) = Ok a.
Proof.
  intros Hl. unfold py_index.
  pose proof (lookup_lt_Some _ _ _ Hl) as Hn.
  destruct (Z.ltb_spec (Z.of_nat n) 0); [lia|].
  destruct (Z.leb_spec 0 (Z.of_nat n)); [|lia].
  destruct (Z.ltb_spec (Z.of_nat n) (Z.of_nat (length l))); [|lia].
  simpl. rewrite Nat2Z.id, Hl. reflexivity.
Qed.

Lemma parse_trace_well_formed (epi : Z) (d : string) :
  epi <> 0%Z -> (Z.abs epi < 2 ^ 53)%Z -> well_formed d ->
  exists r, SimulationLogsIO.parse_trace epi d = Ok r /\ row_of_record d r.
Proof.
  intros Hepi Hsmall
         (f0 & f1 & f2 & f3 & f4 & f5 & f6 & f7 & f8 & f9 & f10 & f11
          & f12 & f13 & f14 & Hsplit & (episode & H0 & Hepisode) & H1 & H2
          & H3 & H4 & H5 & H6 & H7 & H8 & H11 & H12 & H13 & H14).
  apply is_ok_true in H1 as [steps H1], H2 as [vx H2],
    H3 as [vy H3], H4 as [yaw H4], H5 as [steer H5], H6 as [throttle H6],
    H7 as [action H7], H8 as [reward H8], H11 as [progress H11],
    H12 as [waypoint H12], H13 as [track_len H13], H14 as [tstamp H14].
  eexists. split.
  - unfold SimulationLogsIO.parse_trace. rewrite Hsplit.
    rewrite (py_index_nat _ 0 f0), (py_index_nat _ 1 f1), (py_index_nat _ 2 f2),
      (py_index_nat _ 3 f3), (py_index_nat _ 4 f4), (py_index_nat _ 5 f5),
      (py_index_nat _ 6 f6), (py_index_nat _ 7 f7), (py_index_nat _ 8 f8),
      (py_index_nat _ 9 f9), (py_index_nat _ 10 f10), (py_index_nat _ 11 f11),
      (py_index_nat _ 12 f12), (py_index_nat _ 13 f13), (py_index_nat _ 14 f14)
      by reflexivity.
    simpl. rewrite H0. simpl. rewrite H1. simpl. rewrite H2. simpl.
    rewrite H3. simpl. rewrite H4. simpl. rewrite H5. simpl. rewrite H6. simpl.
    rewrite H7. simpl. rewrite H8. simpl. rewrite H11. simpl. rewrite H12.
    simpl. rewrite H13. simpl. rewrite H14. simpl.
    rewrite int_truediv_small by assumption.
    simpl. reflexivity.
  - exists f0, f1, f2, f3, f4, f5, f6, f7, f8, f9, f10, f11, f12, f13, f14,
      vx, vy. simpl. repeat split; assumption.
Qed.

End Converter.

(** C1: a list whose records after the first two are well formed is turned
    into a table with one row per such record and exactly the sixteen
    documented columns; every row holds the fields of its record under their
    casts, [x] and [y] a hundredfold.  The number of episodes per iteration
    is not zero and, like the episode numbers, below [2^53] in size, so
    that the iteration is derived without an error. *)
Theorem convert_to_pandas_rows `{Builtins} (data : list string) (epi : Z) :
  epi <> 0%Z -> (Z.abs epi < 2 ^ 53)%Z ->
  Forall well_formed (drop 2 data) ->
  exists rows,
    SimulationLogsIO.convert_to_pandas data epi = Ok (Frame rows)
    /\ columns (Frame rows)
       = ["iteration"; "episode"; "steps"; "x"; "y"; "yaw"; "steer";
          "throttle"; "action"; "reward"; "done"; "on_track"; "progress";
          "closest_waypoint"; "track_len"; "timestamp"]
    /\ length rows = length (drop 2 data)
    /\ Forall2 row_of_record (drop 2 data) rows.
Proof.
  intros Hepi Hsmall Hwf. unfold SimulationLogsIO.convert_to_pandas.
  assert (exists rows,
           result_mapM (SimulationLogsIO.parse_trace epi) (drop 2 data) = Ok rows
           /\ Forall2 row_of_record (drop 2 data) rows) as (rows & Hrows & Hall).
  { induction Hwf as [|d ds Hd _ IH].
    - exists []. split; [reflexivity | constructor].
    - destruct (parse_trace_well_formed epi d Hepi Hsmall Hd)
        as (r & Hr & Hrow).
      destruct IH as (rs & Hrs & Hall).
      exists (r :: rs). split.
      + simpl. rewrite Hr. simpl. rewrite Hrs. reflexivity.
      + constructor; assumption. }
  exists rows. rewrite Hrows. simpl.
  repeat split; try assumption.
  symmetry. eapply Forall2_length. exact Hall.
Qed.

Lemma convert_to_pandas_rows_witness :
  exists rows,
    @SimulationLogsIO.convert_to_pandas plain_casts sample_data 20 = Ok (Frame rows)
    /\ length rows = 3%nat.
Proof.
  destruct (@convert_to_pandas_rows plain_casts sample_data 20)
    as (rows & Hc & _ & Hl & _).
  - discriminate.
  - reflexivity.
  - repeat constructor; unfold well_formed;
      do 15 eexists; (split; [vm_compute; reflexivity|]);
      (split; [eexists; split; [vm_compute; reflexivity | reflexivity]|]);
      vm_compute; repeat split.
  - exists rows. split; [exact Hc | exact Hl].
Defined.

(** C4 as stated fails: the record of episode -1 is parsed, and
    with twenty episodes per iteration it gets iteration 1, whereas
    [floor(-1 / 20) + 1] is 0. *)
Lemma iteration_is_not_floor_for_negative_episode :
  exists r,
    @SimulationLogsIO.parse_trace plain_casts 20 (sample_record "-1") = Ok r
    /\ Trace.episode r = (-1)%Z
    /\ Trace.iteration r = 1%Z
    /\ Trace.iteration r <> (Trace.episode r / 20 + 1)%Z.
Proof.
  eexists. split; [vm_compute; reflexivity|].
  repeat split. vm_compute. discriminate.
Qed.

(** C4, amended: [int()] truncates toward zero, and the quotient it is
    given is a float.  For a record with a non-negative episode number and a
    positive number of episodes per iteration, both below [2^53], the
    iteration is [floor(episode / episodes_per_iteration) + 1]; with twenty
    episodes per iteration, episodes 0 and 19 get iteration 1 and episode 20
    gets iteration 2. *)
Theorem iteration_is_floor_plus_one `{Builtins} (epi : Z) (d : string)
  (r : Trace.t) :
  (0 < epi < 2 ^ 53)%Z ->
  SimulationLogsIO.parse_trace epi d = Ok r ->
  (0 <= Trace.episode r < 2 ^ 53)%Z ->
  Trace.iteration r = (Trace.episode r / epi + 1)%Z
  /\ (epi = 20%Z ->
      (Trace.episode r = 0%Z -> Trace.iteration r = 1%Z)
      /\ (Trace.episode r = 19%Z -> Trace.iteration r = 1%Z)
      /\ (Trace.episode r = 20%Z -> Trace.iteration r = 2%Z)).
Proof.
  intros Hepi Hp Hnonneg.
  apply parse_trace_iteration in Hp as [_ Hit]; [|lia..].
  rewrite Z.quot_div_nonneg in Hit by lia.
  split; [exact Hit|].
  intros ->. rewrite Hit. repeat split; intros ->; reflexivity.
Qed.

Lemma iteration_is_floor_plus_one_witness :
  exists r,
    @SimulationLogsIO.parse_trace plain_casts 20 (sample_record "19") = Ok r
    /\ Trace.iteration r = (Trace.episode r / 20 + 1)%Z.
Proof.
  eexists. split; [vm_compute; reflexivity|].
  refine (proj1 (@iteration_is_floor_plus_one plain_casts 20
                   (sample_record "19") _ _ _ _)).
  - split; reflexivity.
  - vm_compute. reflexivity.
  - vm_compute. split; [discriminate | reflexivity].
Defined.

(** ** Grouping and joining *)

Lemma key_eqb_eq (a b : key) : key_eqb a b = true <-> a = b.
Proof.
  destruct a as [a1 a2], b as [b1 b2]. unfold key_eqb. simpl.
  rewrite andb_true_iff, !Z.eqb_eq. split.
  - intros [-> ->]. reflexivity.
  - intros [= -> ->]. split; reflexivity.
Qed.

Lemma key_eqb_refl (a : key) : key_eqb a a = true.
Proof. apply key_eqb_eq. reflexivity. Qed.

Lemma key_ltb_lt (a b : key) : key_ltb a b = true <-> key_lt a b.
Proof.
  unfold key_ltb, key_lt.
  rewrite orb_true_iff, andb_true_iff, !Z.ltb_lt, Z.eqb_eq. reflexivity.
Qed.

Lemma key_lt_trans (a b c : key) : key_lt a b -> key_lt b c -> key_lt a c.
Proof. unfold key_lt. lia. Qed.

Lemma key_lt_irrefl (a : key) : ~ key_lt a a.
Proof. unfold key_lt. lia. Qed.

Lemma key_trichotomy (a b : key) :
  key_ltb a b = false -> key_eqb a b = false -> key_lt b a.
Proof.
  destruct a as [a1 a2], b as [b1 b2]. unfold key_ltb, key_eqb, key_lt. simpl.
  rewrite orb_false_iff, !andb_false_iff, !Z.ltb_ge, !Z.eqb_neq. lia.
Qed.

Lemma elem_of_insert_key (k x : key) (ks : list key) :
  x ∈ insert_key k ks <-> x = k \/ x ∈ ks.
Proof.
  induction ks as [|h t IH]; simpl.
  - rewrite list_elem_of_singleton, elem_of_nil. tauto.
  - destruct (key_ltb k h) eqn:Hlt; [rewrite elem_of_cons; reflexivity|].
    destruct (key_eqb k h) eqn:Heq.
    + apply key_eqb_eq in Heq as ->. rewrite elem_of_cons. tauto.
    + rewrite !elem_of_cons, IH. tauto.
Qed.

Lemma insert_key_sorted (k : key) (ks : list key) :
  StronglySorted key_lt ks -> StronglySorted key_lt (insert_key k ks).
Proof.
  induction 1 as [|h t Hsorted IH Hall]; simpl.
  - repeat constructor.
  - destruct (key_ltb k h) eqn:Hlt.
    + apply key_ltb_lt in Hlt. constructor.
      * constructor; assumption.
      * constructor; [assumption|].
        eapply Forall_impl; [exact Hall|].
        intros x Hx. eapply key_lt_trans; eassumption.
    + destruct (key_eqb k h) eqn:Heq.
      * constructor; assumption.
      * constructor; [assumption|].
        apply Forall_forall. intros x Hx.
        apply elem_of_insert_key in Hx as [->|Hx].
        -- apply key_trichotomy; assumption.
        -- rewrite Forall_forall in Hall. apply Hall. exact Hx.
Qed.

Lemma sorted_keys_sorted (ks : list key) : StronglySorted key_lt (sorted_keys ks).
Proof.
  induction ks as [|k ks IH]; simpl.
  - constructor.
  - apply insert_key_sorted. exact IH.
Qed.

Lemma elem_of_sorted_keys (k : key) (ks : list key) :
  k ∈ sorted_keys ks <-> k ∈ ks.
Proof.
  induction ks as [|h t IH]; simpl.
  - reflexivity.
  - rewrite elem_of_insert_key, IH, elem_of_cons. reflexivity.
Qed.

Lemma sorted_NoDup (ks : list key) : StronglySorted key_lt ks -> NoDup ks.
Proof.
  induction 1 as [|h t Hsorted IH Hall].
  - constructor.
  - constructor; [|exact IH].
    intros Hin. rewrite Forall_forall in Hall.
    apply (key_lt_irrefl h). apply Hall. exact Hin.
Qed.

Lemma sorted_keys_NoDup (ks : list key) : NoDup (sorted_keys ks).
Proof. apply sorted_NoDup, sorted_keys_sorted. Qed.

(** Selecting a column at the positions of a group gives the column of
    the rows of that group. *)
Lemma take_rows_positions {X A} (kf : X -> key) (g : X -> A) (k : key)
  (pre l : list X) :
  take_rows (map g (pre ++ l)) (positions k (map kf l) (length pre))
  = map g (List.filter (fun x => key_eqb (kf x) k) l).
Proof.
  revert pre. induction l as [|x l IH]; intros pre; simpl.
  - reflexivity.
  - specialize (IH (pre ++ [x])).
    rewrite <- app_assoc, length_app, Nat.add_1_r in IH. simpl in IH.
    destruct (key_eqb (kf x) k); simpl.
    + unfold take_rows in *. simpl.
      rewrite list_lookup_fmap, lookup_app_r, Nat.sub_diag by lia. simpl.
      f_equal. exact IH.
    + exact IH.
Qed.

Lemma agg_groupby {X A B} (kf : X -> key) (g : X -> A) (f : list A -> B)
  (l : list X) :
  agg (groupby (map kf l)) (map g l) f
  = map (fun k => (k, f (map g (List.filter (fun x => key_eqb (kf x) k) l))))
        (sorted_keys (map kf l)).
Proof.
  unfold agg, groupby. rewrite map_map. apply map_ext. intros k.
  rewrite <- (take_rows_positions kf g k [] l). reflexivity.
Qed.

Lemma filter_key_absent {B} (k : key) (r : list (key * B)) :
  k ∉ map fst r -> List.filter (fun kb => key_eqb kb.1 k) r = [].
Proof.
  induction r as [|[k' b] r IH]; simpl; intros Hk.
  - reflexivity.
  - destruct (key_eqb k' k) eqn:Heq.
    + apply key_eqb_eq in Heq as ->. exfalso. apply Hk. left.
    + apply IH. intros Hin. apply Hk. right. exact Hin.
Qed.

(** Joining two frames that list the same distinct keys in the same order
    pairs their rows up. *)
Lemma merge_aligned {A B} (l : list (key * A)) (r : list (key * B)) :
  NoDup (map fst l) -> map fst l = map fst r ->
  merge l r = zip_with (fun a b => (a.1, (a.2, b.2))) l r.
Proof.
  unfold merge.
  assert (forall (l : list (key * A)) (r r0 : list (key * B)),
             NoDup (map fst r0 ++ map fst l) -> map fst l = map fst r ->
             flat_map (fun '(k, a) =>
                         map (fun '(_, b) => (k, (a, b)))
                             (List.filter (fun kb => key_eqb kb.1 k) (r0 ++ r))) l
             = zip_with (fun a b => (a.1, (a.2, b.2))) l r) as Hgen.
  { clear l r. induction l as [|[k a] l IH]; intros r r0 Hnd Hkeys.
    - reflexivity.
    - destruct r as [|[k' b] r]; [discriminate|].
      simpl in Hkeys. injection Hkeys as <- Hkeys. simpl.
      rewrite List.filter_app. simpl. rewrite key_eqb_refl.
      apply NoDup_app in Hnd as (Hnd0 & Hdisj & Hndl).
      apply NoDup_cons in Hndl as [Hk Hndl].
      rewrite (filter_key_absent k r0), (filter_key_absent k r).
      + simpl. f_equal.
        specialize (IH r (r0 ++ [(k, b)])).
        rewrite <- app_assoc in IH. simpl in IH. apply IH; [|exact Hkeys].
        rewrite map_app. simpl.
        apply NoDup_app. split; [|split].
        * apply NoDup_app. split; [exact Hnd0|]. split.
          -- intros x Hx Hx'. apply list_elem_of_singleton in Hx' as ->.
             apply (Hdisj k Hx). left.
          -- apply NoDup_singleton.
        * intros x Hx Hx'. apply elem_of_app in Hx as [Hx|Hx].
          -- apply (Hdisj x Hx). right. exact Hx'.
          -- apply list_elem_of_singleton in Hx as ->. contradiction.
        * exact Hndl.
      + rewrite <- Hkeys. exact Hk.
      + intros Hin. apply (Hdisj k Hin). left. }
  intros Hnd Hkeys. apply (Hgen l r []); assumption.
Qed.

Lemma merge_map {A B} (f : key -> A) (g : key -> B) (ks : list key) :
  NoDup ks ->
  merge (map (fun k => (k, f k)) ks) (map (fun k => (k, g k)) ks)
  = map (fun k => (k, (f k, g k))) ks.
Proof.
  intros Hnd. rewrite merge_aligned.
  - clear Hnd. induction ks as [|k ks IH]; simpl; [reflexivity|].
    f_equal. exact IH.
  - rewrite map_map. simpl. rewrite map_id. exact Hnd.
  - rewrite !map_map. reflexivity.
Qed.

Lemma merge_tabulate {A B} (f : key -> A) (g : key -> B) (ks : list key) :
  NoDup ks ->
  merge (tabulate f ks) (tabulate g ks) = tabulate (fun k => (f k, g k)) ks.
Proof. apply merge_map. Qed.

Lemma merge_unless_tabulate {A B} (skip : bool) (f : key -> A) (g : key -> B)
  (r : list (key * B)) (ks : list key) :
  NoDup ks -> (skip = false -> r = tabulate g ks) ->
  merge_unless skip (tabulate f ks) r
  = tabulate (fun k => (f k, if skip then None else Some (g k))) ks.
Proof.
  intros Hnd Hr. unfold merge_unless. destruct skip.
  - unfold tabulate. rewrite map_map. reflexivity.
  - rewrite Hr by reflexivity.
    change (map (fun '(k, b) => (k, Some b)) (tabulate g ks))
      with (map (fun kb : key * B => let '(k, b) := kb in (k, Some b))
              (tabulate g ks)).
    unfold tabulate at 2. rewrite map_map.
    apply (merge_tabulate f (fun k => Some (g k))). exact Hnd.
Qed.

Section Groups.
Variable firstgroup : Trace.t -> Z.

Lemma group_keys_NoDup (df : DataFrame) : NoDup (group_keys firstgroup df).
Proof. apply sorted_keys_NoDup. Qed.

Lemma agg_trace_column {A B} (g : Trace.t -> A) (f : list A -> B)
  (df : DataFrame) :
  agg (groupby (map (fun r => (firstgroup r, Trace.episode r)) (traces df)))
      (AnalysisUtils.column g df) f
  = tabulate (fun k => f (map g (group_traces firstgroup k df)))
      (group_keys firstgroup df).
Proof. apply (agg_groupby (key_of firstgroup) g f). Qed.

Lemma traces_rewarded (df : DataFrame) : traces df = map fst (rewarded df).
Proof.
  destruct df as [rows|rows]; simpl; [|reflexivity].
  rewrite map_map. simpl. rewrite map_id. reflexivity.
Qed.

Lemma agg_new_reward_column {B} (f : list float -> B) (df : DataFrame) :
  agg (groupby (map (fun r => (firstgroup r, Trace.episode r)) (traces df)))
      (map snd (rewarded df)) f
  = tabulate (fun k => f (group_new_rewards firstgroup k df))
      (group_keys firstgroup df).
Proof.
  unfold group_keys, group_new_rewards. rewrite traces_rewarded, !map_map.
  apply (agg_groupby (fun p => key_of firstgroup p.1) snd f).
Qed.

Lemma elem_of_group_keys (k : key) (df : DataFrame) :
  k ∈ group_keys firstgroup df <-> exists r, r ∈ traces df /\ key_of firstgroup r = k.
Proof.
  unfold group_keys. rewrite elem_of_sorted_keys, list_elem_of_fmap.
  split; intros (r & H1 & H2); exists r; split; auto.
Qed.

End Groups.

(** ** The aggregator in closed form *)

Import AnalysisUtils.

Lemma new_reward_in_columns (df : DataFrame) :
  bool_decide ("new_reward" ∈ columns df)
  = match df with Frame _ => false | FrameNewReward _ => true end.
Proof. destruct df; vm_compute; reflexivity. Qed.

Lemma zip_rewarded (rows : list Trace.t) :
  zip rows (map Trace.reward rows) = rewarded (Frame rows).
Proof.
  simpl. induction rows as [|r rows IH]; simpl; [reflexivity|].
  f_equal. exact IH.
Qed.

Lemma column_rewarded {A} (g : Trace.t -> A) (df : DataFrame) :
  column g (FrameNewReward (rewarded df)) = column g df.
Proof. unfold column. simpl. rewrite <- traces_rewarded. reflexivity. Qed.

Lemma cut_code_lt (mn mx v : Z) : (cut_code mn mx 5 v < 5)%nat.
Proof.
  unfold cut_code. simpl seq.
  eapply Nat.le_lt_trans; [apply List.filter_length_le|]. simpl. lia.
Qed.

Lemma mapM_cut_labels (mn mx : Z) (l : list Z) :
  result_mapM (fun v => match quintile_labels !! cut_code mn mx 5 v with
                        | Some lbl => Ok lbl
                        | None => Raise IndexError
                        end) l
  = Ok (map (fun v => default "" (quintile_labels !! cut_code mn mx 5 v)) l).
Proof.
  induction l as [|v l IH]; simpl; [reflexivity|].
  pose proof (cut_code_lt mn mx v) as Hlt.
  destruct (quintile_labels !! cut_code mn mx 5 v) as [lbl|] eqn:Hl.
  - simpl. rewrite IH. reflexivity.
  - apply lookup_ge_None in Hl. simpl in Hl. lia.
Qed.

Lemma pd_cut_labels (xs : list Z) :
  pd_cut xs 5 quintile_labels
  = match xs with
    | [] => Raise ValueError
    | _ => Ok (map (cut_label xs) xs)
    end.
Proof.
  destruct xs as [|h t]; [reflexivity|].
  unfold pd_cut. change (negb _) with false. cbv iota.
  apply mapM_cut_labels.
Qed.

Lemma merge_unless_skipped {A B} (f : key -> A) (r : list (key * B))
  (ks : list key) :
  merge_unless true (tabulate f ks) r = tabulate (fun k => (f k, None)) ks.
Proof. unfold merge_unless, tabulate. rewrite map_map. reflexivity. Qed.

Lemma merge_unless_done {A B} (f : key -> A) (g : key -> B) (ks : list key) :
  NoDup ks ->
  merge_unless false (tabulate f ks) (tabulate g ks)
  = tabulate (fun k => (f k, Some (g k))) ks.
Proof.
  intros Hnd.
  apply (merge_unless_tabulate false f g (tabulate g ks) ks Hnd).
  reflexivity.
Qed.

Lemma map_snd_tabulate {A B} (h : A -> B) (f : key -> A) (ks : list key) :
  map (fun '(k, d) => (k, h d)) (tabulate f ks)
  = tabulate (fun k => h (f k)) ks.
Proof. unfold tabulate. rewrite map_map. reflexivity. Qed.

Lemma map_tabulate {A B} (h : key * A -> B) (f : key -> A) (ks : list key) :
  map h (tabulate f ks) = map (fun k => h (k, f k)) ks.
Proof. unfold tabulate. rewrite map_map. reflexivity. Qed.

Lemma mapM_tabulate {A B} (c : A -> result B) (d : B) (f : key -> A)
  (ks : list key) :
  result_mapM (fun '(k, a) => c a ≫= fun t => Ok (k, t)) (tabulate f ks)
  = match result_mapM (fun k => c (f k)) ks with
    | Ok _ => Ok (tabulate (fun k => match c (f k) with
                                     | Ok t => t
                                     | Raise _ => d
                                     end) ks)
    | Raise e => Raise e
    end.
Proof.
  unfold tabulate. induction ks as [|k ks IH]; simpl; [reflexivity|].
  destruct (c (f k)) as [t|e]; simpl; [|reflexivity].
  rewrite IH. destruct (result_mapM _ ks); reflexivity.
Qed.

Lemma mapM_Ok_all {A B} (c : A -> result B) (l : list A) (bs : list B) :
  result_mapM c l = Ok bs -> forall a, a ∈ l -> is_ok (c a) = true.
Proof.
  revert bs. induction l as [|x l IH]; intros bs Hm a Ha.
  - apply elem_of_nil in Ha. contradiction.
  - simpl in Hm. destruct (c x) as [b|e] eqn:Hx; simpl in Hm; [|discriminate].
    destruct (result_mapM c l) as [bs'|e] eqn:Hl; simpl in Hm; [|discriminate].
    apply elem_of_cons in Ha as [->|Ha].
    + rewrite Hx. reflexivity.
    + eapply IH; [reflexivity | exact Ha].
Qed.

Lemma zip_with_map_same {X A B C} (h : A -> B -> C) (g : X -> A) (q : X -> B)
  (l : list X) :
  zip_with h (map g l) (map q l) = map (fun x => h (g x) (q x)) l.
Proof. induction l as [|x l IH]; simpl; [reflexivity|]. f_equal. exact IH. Qed.

Lemma merge_unless_skipped_map {A B} (g : key -> key * A) (r : list (key * B))
  (ks : list key) :
  merge_unless true (map g ks) r
  = map (fun k => ((g k).1, ((g k).2, None))) ks.
Proof.
  unfold merge_unless. rewrite map_map. apply map_ext.
  intros k. destruct (g k). reflexivity.
Qed.

Lemma merge_unless_done_map {A B} (g : key -> key * A) (f : key -> B)
  (ks : list key) :
  NoDup ks -> (forall k, (g k).1 = k) ->
  merge_unless false (map g ks) (tabulate f ks)
  = map (fun k => (k, ((g k).2, Some (f k)))) ks.
Proof.
  intros Hnd Hg.
  replace (map g ks) with (tabulate (fun k => (g k).2) ks).
  - apply (merge_unless_done (fun k => (g k).2) f ks Hnd).
  - apply map_ext. intros k. specialize (Hg k). destruct (g k). simpl in *.
    subst. reflexivity.
Qed.

Lemma set_new_reward_rewarded (rows : list Trace.t) :
  set_new_reward (Frame rows) (column Trace.reward (Frame rows))
  = FrameNewReward (rewarded (Frame rows)).
Proof. unfold set_new_reward, column. simpl traces. rewrite zip_rewarded. reflexivity. Qed.

Lemma pd_cut_nonempty (xs : list Z) :
  xs <> [] -> pd_cut xs 5 quintile_labels = Ok (map (cut_label xs) xs).
Proof.
  intros Hne. rewrite pd_cut_labels. destruct xs; [contradiction|reflexivity].
Qed.

Section Aggregator.
Context `{Numpy}.
Variable firstgroup : Trace.t -> Z.

Lemma simulation_agg_closed (ts ie : bool) (e : env) : 
  simulation_agg firstgroup ts ie e
  = (aggregate_table firstgroup ts ie (panda e), after_agg ie e).
Proof.
  destruct e as [df out].
  pose proof (group_keys_NoDup firstgroup df) as HK.
  unfold simulation_agg, aggregate_table, after_agg.
  cbn [prog_bind get_panda prog_ret lift print set_panda modify panda printed].
  destruct ie.
  - cbn [prog_bind get_panda prog_ret lift panda printed].
    rewrite !agg_trace_column, map_snd_tabulate.
    rewrite !merge_tabulate, merge_unless_skipped, merge_tabulate,
      merge_unless_skipped by exact HK.
    rewrite !map_tabulate, map_map, zip_with_map_same. cbn beta iota.
    destruct ts.
    + rewrite (mapM_tabulate _ 0%Z). cbn [mbind result_bind].
      destruct (result_mapM _ _) as [stamps|err] eqn:Hstamps;
        cbn [negb prog_bind lift prog_ret]; [|reflexivity].
      rewrite merge_unless_done_map by (exact HK || reflexivity).
      rewrite map_map. unfold prog_ret. cbn [mbind result_bind].
      do 2 f_equal. apply map_ext_in. intros k Hk. cbn [fst snd].
      apply list_elem_of_In in Hk.
      apply (mapM_Ok_all _ _ _ Hstamps), is_ok_true in Hk as [t Ht].
      unfold episode_aggregate. rewrite Ht. reflexivity.
    + cbn [negb prog_bind lift prog_ret]. 
      rewrite merge_unless_skipped_map, map_map. reflexivity.
  - rewrite new_reward_in_columns.
    assert (forall A B (g : Trace.t -> A) (f : list A -> B),
              agg (groupby (map (fun r => (firstgroup r, Trace.episode r))
                              (traces df)))
                  (column g (panda (after_agg false
                                      {| panda := df; printed := out |}))) f
              = tabulate (fun k => f (map g (group_traces firstgroup k df)))
                  (group_keys firstgroup df)) as Hcolumn.
    { intros A B g f. rewrite <- agg_trace_column. f_equal.
      destruct df as [rows|rows]; [apply column_rewarded | reflexivity]. }
    pose proof (agg_new_reward_column firstgroup np_sum df) as Hvalues.
    destruct df as [rows|rows];
      cbv [prog_bind print set_panda modify get_panda prog_ret lift panda
           printed after_agg] in *;
      [rewrite set_new_reward_rewarded|];
      cbv [new_reward_column];
      [|change (map snd rows) with (map snd (rewarded (FrameNewReward rows)))];
      rewrite Hvalues, !Hcolumn, ?agg_trace_column, map_snd_tabulate;
      rewrite !merge_tabulate, merge_unless_done, merge_tabulate,
        merge_unless_done by exact HK;
      rewrite !map_tabulate, !map_map; cbn [fst snd].
    all: change (map (fun x : key => x.2)) with (@map key Z snd).
    all: match goal with
         | |- context [pd_cut (map snd ?ks)] =>
             destruct (decide (ks = [])) as [Hks|Hks];
             [rewrite Hks; reflexivity
             |rewrite !pd_cut_nonempty
                by (destruct ks; [contradiction|discriminate])]
         end.
    all: cbn [fmap result_fmap mbind result_bind].
    all: rewrite !map_map, zip_with_map_same; cbv beta iota.
    all: destruct ts.
    all: try (rewrite (mapM_tabulate _ 0%Z);
              destruct (result_mapM _ _) as [stamps|err] eqn:Hstamps;
              [|reflexivity];
              rewrite merge_unless_done_map by (exact HK || reflexivity);
              rewrite map_map; cbn [mbind result_bind];
              do 2 f_equal; apply map_ext_in; intros k Hk; cbn [fst snd];
              apply list_elem_of_In in Hk;
              apply (mapM_Ok_all _ _ _ Hstamps), is_ok_true in Hk as [t Ht];
              unfold episode_aggregate; rewrite Ht; reflexivity).
    all: rewrite merge_unless_skipped_map, map_map; reflexivity.
Qed.
End Aggregator.

(** ** What the aggregator returns *)

Section AggregatorProperties.
Context `{Numpy}.
Variable firstgroup : Trace.t -> Z.



Lemma aggregate_table_rows (ts ie : bool) (df : DataFrame) (res : list Agg.t) :
  aggregate_table firstgroup ts ie df = Ok res ->
  res = map (episode_aggregate firstgroup ts ie df) (group_keys firstgroup df).
Proof.
  unfold aggregate_table. intros Hres. ok_inv Hres.
  injection Hres as <-. reflexivity.
Qed.

Lemma simulation_agg_rows (ts ie : bool) (e e' : env) (res : list Agg.t) :
  simulation_agg firstgroup ts ie e = (Ok res, e') ->
  res = map (episode_aggregate firstgroup ts ie (panda e))
          (group_keys firstgroup (panda e))
  /\ e' = after_agg ie e.
Proof.
  rewrite simulation_agg_closed. intros [= Hres <-].
  split; [apply aggregate_table_rows; exact Hres | reflexivity].
Qed.




End AggregatorProperties.





(** ** The quintile labels *)

Lemma fold_min_le_init (t : list Z) (h : Z) : (fold_left Z.min t h <= h)%Z.
Proof.
  revert h. induction t as [|y t IH]; intros h; simpl; [lia|].
  specialize (IH (Z.min h y)). lia.
Qed.

Lemma fold_min_le_elem (t : list Z) (h x : Z) :
  x ∈ t -> (fold_left Z.min t h <= x)%Z.
Proof.
  revert h. induction t as [|y t IH]; intros h Hx; simpl.
  - apply elem_of_nil in Hx. contradiction.
  - apply elem_of_cons in Hx as [Hx|Hx].
    + pose proof (fold_min_le_init t (Z.min h y)). lia.
    + apply IH. exact Hx.
Qed.

Lemma fold_max_ge_init (t : list Z) (h : Z) : (h <= fold_left Z.max t h)%Z.
Proof.
  revert h. induction t as [|y t IH]; intros h; simpl; [lia|].
  specialize (IH (Z.max h y)). lia.
Qed.

Lemma fold_max_ge_elem (t : list Z) (h x : Z) :
  x ∈ t -> (x <= fold_left Z.max t h)%Z.
Proof.
  revert h. induction t as [|y t IH]; intros h Hx; simpl.
  - apply elem_of_nil in Hx. contradiction.
  - apply elem_of_cons in Hx as [Hx|Hx].
    + pose proof (fold_max_ge_init t (Z.max h y)). lia.
    + apply IH. exact Hx.
Qed.

Lemma np_min_max_bounds (l : list Z) (x : Z) :
  x ∈ l -> (np_min_int l <= x <= np_max_int l)%Z.
Proof.
  destruct l as [|h t]; intros Hx.
  - apply elem_of_nil in Hx. contradiction.
  - simpl. apply elem_of_cons in Hx as [->|Hx].
    + split; [apply fold_min_le_init | apply fold_max_ge_init].
    + split; [apply fold_min_le_elem | apply fold_max_ge_elem]; exact Hx.
Qed.






(** ** Calling the aggregator again, and what it does to its input *)

Lemma aggregate_table_same_rows `{Numpy} (firstgroup : Trace.t -> Z)
  (ts ie : bool) (df df' : DataFrame) :
  traces df' = traces df -> rewarded df' = rewarded df ->
  aggregate_table firstgroup ts ie df' = aggregate_table firstgroup ts ie df.
Proof.
  intros Htraces Hrewarded.
  unfold aggregate_table, episode_aggregate, group_keys, group_traces,
    group_new_rewards.
  rewrite Htraces, Hrewarded. reflexivity.
Qed.

Lemma after_agg_traces (ie : bool) (e : env) :
  traces (panda (after_agg ie e)) = traces (panda e)
  /\ rewarded (panda (after_agg ie e)) = rewarded (panda e).
Proof.
  destruct ie, e as [[rows|rows] out]; simpl; split; try reflexivity.
  rewrite map_map. simpl. apply map_id.
Qed.

Lemma after_agg_twice (ie : bool) (e : env) :
  after_agg ie (after_agg ie e) = after_agg ie e.
Proof. destruct ie, e as [[rows|rows] out]; reflexivity. Qed.

(** C7: a second call with the same arguments, on the table as the first
    call left it, returns the same table of aggregates (or raises the same
    exception) and leaves the input as it found it. *)
Theorem simulation_agg_twice `{Numpy} (firstgroup : Trace.t -> Z)
  (add_timestamp is_eval : bool) (e : env) :
  let once := simulation_agg firstgroup add_timestamp is_eval e in
  let twice := simulation_agg firstgroup add_timestamp is_eval once.2 in
  twice.1 = once.1 /\ twice.2 = once.2.
Proof.
  cbv zeta. rewrite !simulation_agg_closed. cbn [fst snd].
  destruct (after_agg_traces is_eval e) as [Htraces Hrewarded].
  split.
  - apply aggregate_table_same_rows; assumption.
  - apply after_agg_twice.
Qed.



(** ** The waypoints that bracket the car *)




Lemma py_index_in_range {A} (l : list A) (i : Z) :
  (0 <= i < Z.of_nat (length l))%Z -> exists a, py_index l i = Ok a.
Proof.
  intros Hi. destruct (lookup_lt_is_Some_2 l (Z.to_nat i)) as [a Ha]; [lia|].
  exists a. rewrite <- (Z2Nat.id i) by lia. apply py_index_nat. exact Ha.
Qed.



(** ** [determine_action_names] *)

(** C10: whatever the group-by yields for its keys, [determine_action_names]
    hands [sorted] a second positional argument, so the call raises a type
    error instead of returning the names; no input makes it return. *)
Theorem determine_action_names_raises `{Builtins} `{GroupKeys} (df : DataFrame) :
  ActionBreakdownUtils.determine_action_names df
    = match groupby_keys df with
      | Ok _ => Raise TypeError
      | Raise e => Raise e
      end
  /\ is_ok (ActionBreakdownUtils.determine_action_names df) = false.
Proof.
  unfold ActionBreakdownUtils.determine_action_names.
  destruct (groupby_keys df) as [ks|e]; simpl; split; reflexivity.
Qed.

(** * More of the code

    Properties of the loader, the converter, the aggregator, the waypoint
    bracketing and the reward grid beyond the ones above. *)

(** ** Splitting and joining strings *)

(** ** Strings *)

Lemma split_aux_cons (sep : string) (k : nat) (s : string) :
  exists h r, Str.split_aux sep k s = h :: r.
Proof.
  revert k. induction s as [|c t IH]; intros k; cbn [Str.split_aux].
  - eauto.
  - destruct k as [|k]; [|apply IH].
    destruct (String.prefix sep (String c t)); [eauto|].
    destruct (IH 0%nat) as (h & r & ->). eauto.
Qed.

Lemma prefix_nil (s : string) : String.prefix "" s = true.
Proof. destruct s; reflexivity. Qed.

Lemma prefix_cons (a b : ascii) (m s : string) :
  String.prefix (String a m) (String b s)
  = (if Ascii.eqb a b then String.prefix m s else false).
Proof.
  simpl. destruct (Ascii.ascii_dec a b) as [->|Hne].
  - rewrite Ascii.eqb_refl. reflexivity.
  - apply Ascii.eqb_neq in Hne. rewrite Hne. reflexivity.
Qed.

(** Splitting at a one-character separator and joining again gives the
    string back. *)
Lemma join_split_char (a : ascii) (s : string) :
  Str.join (String a "") (Str.split (String a "") s) = s.
Proof.
  unfold Str.join, Str.split. induction s as [|c t IH].
  - reflexivity.
  - cbn [Str.split_aux]. rewrite prefix_cons, prefix_nil.
    destruct (split_aux_cons (String a "") 0 t) as (h & r & Hs).
    cbn [String.length Nat.sub]. rewrite Hs in *.
    destruct (Ascii.eqb_spec a c) as [->|Hne].
    + change (String.concat (String c "") ("" :: h :: r))
        with (String c (String.concat (String c "") (h :: r))).
      rewrite IH. reflexivity.
    + rewrite <- IH. destruct r as [|h' r]; reflexivity.
Qed.

(** A separator that is matched is dropped whole. *)
Lemma split_aux_skip (sep u s : string) :
  Str.split_aux sep (String.length u) (u +:+ s) = Str.split_aux sep 0 s.
Proof.
  induction u as [|c u IH]; [|exact IH].
  destruct s; reflexivity.
Qed.

Lemma split_at_sep (a : ascii) (m s : string) :
  Str.split (String a m) (String a m +:+ s) = "" :: Str.split (String a m) s.
Proof.
  unfold Str.split. 
  change (String a m +:+ s) with (String a (m +:+ s)).
  cbn [Str.split_aux].
  assert (String.prefix (String a m) (String a (m +:+ s)) = true) as ->.
  { rewrite prefix_cons, Ascii.eqb_refl.
    clear. revert s. induction m as [|c m IH]; intros s; [apply prefix_nil|].
    change (String c m +:+ s) with (String c (m +:+ s)).
    rewrite prefix_cons, Ascii.eqb_refl. apply IH. }
  cbn [String.length]. rewrite Nat.sub_1_r. cbn [Nat.pred].
  rewrite split_aux_skip. reflexivity.
Qed.

(** Without an occurrence of the separator there is one piece. *)
Lemma split_absent (sep s : string) :
  Str.contains sep s = false -> Str.split sep s = [s].
Proof.
  unfold Str.split. induction s as [|c t IH]; intros Hc; [reflexivity|].
  cbn [Str.contains] in Hc. apply orb_false_elim in Hc as [Hp Ht].
  cbn [Str.split_aux]. rewrite Hp, (IH Ht). reflexivity.
Qed.

(** Whether [m] starts a string is settled by as many characters as [m]
    has. *)
Lemma prefix_app_long (m a b : string) :
  (String.length m <= String.length a)%nat ->
  String.prefix m (a +:+ b) = String.prefix m a.
Proof.
  revert a. induction m as [|c m IH]; intros a Hlen.
  - rewrite !prefix_nil. reflexivity.
  - destruct a as [|d a]; [simpl in Hlen; lia|].
    change (String d a +:+ b) with (String d (a +:+ b)).
    rewrite !prefix_cons. destruct (Ascii.eqb c d); [|reflexivity].
    apply IH. simpl in Hlen. lia.
Qed.

Lemma string_app_cons (c : ascii) (a b : string) :
  String c a +:+ b = String c (a +:+ b).
Proof. reflexivity. Qed.

Lemma string_app_assoc (a b c : string) : (a +:+ b) +:+ c = a +:+ (b +:+ c).
Proof.
  induction a as [|x a IH]; [reflexivity|].
  rewrite !string_app_cons. f_equal. exact IH.
Qed.

Lemma string_length_app (a b : string) :
  String.length (a +:+ b) = (String.length a + String.length b)%nat.
Proof.
  induction a as [|x a IH]; [reflexivity|].
  rewrite string_app_cons. cbn [String.length]. rewrite IH. reflexivity.
Qed.

(** The first piece ends at the first occurrence of the separator
    [init ++ [z]]: no occurrence starts inside [pre]. *)
Lemma split_first (init : string) (z : ascii) (pre s : string) :
  let sep := init +:+ String z "" in
  Str.contains sep (pre +:+ init) = false ->
  Str.split sep (pre +:+ sep +:+ s) = pre :: Str.split sep s.
Proof.
  intros sep. induction pre as [|c pre IH]; intros Hc.
  - change ("" +:+ sep +:+ s) with (sep +:+ s).
    destruct init as [|a init]; apply split_at_sep.
  - change (String c pre +:+ init) with (String c (pre +:+ init)) in Hc.
    cbn [Str.contains] in Hc. apply orb_false_elim in Hc as [Hp Ht].
    specialize (IH Ht). unfold Str.split in *.
    change (String c pre +:+ sep +:+ s) with (String c (pre +:+ sep +:+ s)).
    cbn [Str.split_aux].
    assert (String.prefix sep (String c (pre +:+ sep +:+ s)) = false) as ->.
    { rewrite <- Hp.
      change (String c (pre +:+ sep +:+ s)) with (String c pre +:+ sep +:+ s).
      change (String c (pre +:+ init)) with (String c pre +:+ init).
      unfold sep. rewrite (string_app_assoc init), <- (string_app_assoc (String c pre)).
      apply prefix_app_long.
      rewrite !string_length_app. simpl. lia. }
    rewrite IH. reflexivity.
Qed.

(** A separator that lacks the character [c] cannot start in front of a
    [c] unless it ends before it. *)
Lemma prefix_app_char (m r : string) (c : ascii) (s : string) :
  Forall (fun a => a <> c) (list_ascii_of_string m) ->
  String.prefix m (r +:+ String c s) = String.prefix m r.
Proof.
  revert r. induction m as [|a m IH]; intros r Hm.
  - rewrite !prefix_nil. reflexivity.
  - simpl in Hm. apply Forall_cons in Hm as [Ha Hm].
    destruct r as [|b r].
    + change ("" +:+ String c s) with (String c s).
      rewrite prefix_cons. apply Ascii.eqb_neq in Ha. rewrite Ha. reflexivity.
    + change (String b r +:+ String c s) with (String b (r +:+ String c s)).
      rewrite !prefix_cons. destruct (Ascii.eqb a b); [|reflexivity].
      apply IH. exact Hm.
Qed.

(** The first piece runs past a [c] when the separator, which lacks the
    character [c], does not occur before it. *)
Lemma split_past_char (sep rec : string) (c : ascii) (s : string) :
  Forall (fun a => a <> c) (list_ascii_of_string sep) ->
  Str.contains sep rec = false ->
  exists h r, Str.split sep s = h :: r
              /\ Str.split sep (rec +:+ String c s) = (rec +:+ String c h) :: r.
Proof.
  intros Hc Hrec. unfold Str.split.
  destruct (split_aux_cons sep 0 s) as (h & r & Hs). exists h, r.
  split; [exact Hs|].
  revert Hrec. induction rec as [|b rec IH]; intros Hrec.
  - pose proof (prefix_app_char sep "" c s Hc) as Hp.
    change ("" +:+ String c s) with (String c s) in *.
    cbn [Str.contains] in Hrec. rewrite orb_false_r in Hrec.
    cbn [Str.split_aux]. rewrite Hp, Hrec, Hs. reflexivity.
  - cbn [Str.contains] in Hrec. apply orb_false_elim in Hrec as [Hp Ht].
    rewrite !string_app_cons. cbn [Str.split_aux].
    rewrite <- string_app_cons.
    rewrite (prefix_app_char sep (String b rec) c s Hc), Hp.
    rewrite (IH Ht). reflexivity.
Qed.

(** ** More on the log loader *)

Section LoaderMore.
Import SimulationLogsIO.
Variable fs : gmap string (list string).

Lemma contains_app_r (m pre s : string) :
  Str.contains m s = true -> Str.contains m (pre +:+ s) = true.
Proof.
  intros Hs. induction pre as [|c pre IH]; [exact Hs|].
  rewrite string_app_cons. cbn [Str.contains]. rewrite IH. apply orb_true_r.
Qed.

Lemma contains_prefix (m s : string) :
  String.prefix m s = true -> Str.contains m s = true.
Proof. intros Hp. destruct s; cbn [Str.contains]; rewrite Hp; reflexivity. Qed.

Lemma string_app_nil_r (s : string) : s +:+ "" = s.
Proof.
  induction s as [|c s IH]; [reflexivity|]. rewrite string_app_cons, IH. reflexivity.
Qed.

Lemma marker_lacks_tab :
  Forall (fun a => a <> ascii_of_nat 9) (list_ascii_of_string "SIM_TRACE_LOG:").
Proof. repeat constructor; discriminate. Qed.

Lemma split_first_marker (pre s : string) :
  Str.contains "SIM_TRACE_LOG:" (pre +:+ "SIM_TRACE_LOG") = false ->
  Str.split "SIM_TRACE_LOG:" (pre +:+ "SIM_TRACE_LOG:" +:+ s)
  = pre :: Str.split "SIM_TRACE_LOG:" s.
Proof. exact (split_first "SIM_TRACE_LOG" ":" pre s). Qed.

Lemma split_first_char (c : ascii) (pre s : string) :
  Str.contains (String c "") pre = false ->
  Str.split (String c "") (pre +:+ String c s)
  = pre :: Str.split (String c "") s.
Proof.
  intros Hpre. rewrite <- (string_app_nil_r pre) in Hpre.
  exact (split_first "" c pre s Hpre).
Qed.

(** What [trace_parts] makes of a line that holds a record: the fields of
    the record. *)
Lemma trace_parts_record (line rec : string) :
  record_of_line line rec ->
  Str.contains "SIM_TRACE_LOG" line = true
  /\ trace_parts line = Ok (Str.split "," rec).
Proof.
  intros (pre & tail & -> & Htail & Hpre & Hrec & Htab). split.
  - apply contains_app_r, contains_prefix. reflexivity.
  - unfold trace_parts. rewrite (split_first_marker pre _ Hpre).
    destruct Htail as [->|[rest ->]].
    + rewrite string_app_nil_r, (split_absent _ _ Hrec).
      rewrite (py_index_nat _ 1 rec) by reflexivity. cbn [mbind result_bind].
      rewrite (split_absent _ _ Htab).
      rewrite (py_index_nat _ 0 rec) by reflexivity. reflexivity.
    + destruct (split_past_char "SIM_TRACE_LOG:" rec (ascii_of_nat 9) rest
                  marker_lacks_tab Hrec) as (h & r & Hs & Hsplit).
      unfold Str.tab in *. rewrite string_app_cons. change ("" +:+ rest) with rest.
      rewrite Hsplit.
      rewrite (py_index_nat _ 1 (rec +:+ String (ascii_of_nat 9) h)) by reflexivity.
      cbn [mbind result_bind].
      rewrite (split_first_char _ rec h Htab).
      rewrite (py_index_nat _ 0 rec) by reflexivity. reflexivity.
Qed.

Lemma for_each_app {S A} (l1 l2 : list A) (body : A -> prog S unit) (s : S) :
  for_each (l1 ++ l2) body s
  = match for_each l1 body s with
    | (Ok _, s1) => for_each l2 body s1
    | (Raise e, s1) => (Raise e, s1)
    end.
Proof.
  revert s. induction l1 as [|a l1 IH]; intros s; [reflexivity|].
  cbn [for_each app]. unfold prog_bind.
  destruct (body a s) as [[[]|e] s1]; [apply IH | reflexivity].
Qed.

(** The loop of [load_single_file] over the lines of a file appends their
    records to the list object [l]. *)
Lemma append_records (l : loc) (lines recs : list string) (w : world) :
  trace_lines lines recs ->
  for_each lines
    (fun line =>
       if Str.contains "SIM_TRACE_LOG" line
       then (parts <- lift (trace_parts line) ;;
             list_append l (Str.join "," parts))%prog
       else prog_ret tt) w
  = (Ok tt, {| heap := alter (fun old => old ++ recs) l (heap w);
               stdout := stdout w |}).
Proof.
  intros Hlines. revert w.
  induction Hlines as [|line lines recs Hskip _ IH|line rec lines recs Hrec _ IH];
    intros w.
  - cbn [for_each]. unfold prog_ret. f_equal. destruct w as [hp out].
    cbn [heap stdout]. f_equal. symmetry. apply list_alter_id.
    intros old. apply app_nil_r.
  - cbn [for_each]. rewrite Hskip. unfold prog_bind, prog_ret. apply IH.
  - cbn [for_each].
    destruct (trace_parts_record line rec Hrec) as [-> ->].
    unfold prog_bind, lift, list_append, modify.
    rewrite IH. cbn [heap stdout]. do 2 f_equal.
    change "," with (String "," "") at 1 2.
    rewrite join_split_char.
    rewrite list_alter_alter_eq. apply list_alter_ext; [|reflexivity].
    intros old _. cbn. rewrite <- app_assoc. reflexivity.
Qed.

Lemma alter_fresh {A} (f : list A -> list A) (hp : list (list A)) :
  alter f (length hp) (hp ++ [[]]) = hp ++ [f []].
Proof.
  induction hp as [|x hp IH]; [reflexivity|].
  cbn [length app]. cbn. f_equal. exact IH.
Qed.

Lemma alter_insert {A} (f : A -> A) (l : list A) (i : nat) (x : A) :
  l !! i = Some x -> alter f i l = <[i := f x]> l.
Proof.
  revert i. induction l as [|a l IH]; intros [|i] Hi; try discriminate.
  - injection Hi as ->. reflexivity.
  - cbn. f_equal. apply IH. exact Hi.
Qed.

Lemma for_each_ext {S A} (b1 b2 : A -> prog S unit) (l : list A) (s : S) :
  (forall a s0, b1 a s0 = b2 a s0) -> for_each l b1 s = for_each l b2 s.
Proof.
  intros Hb. revert s. induction l as [|a l IH]; intros s; [reflexivity|].
  cbn [for_each]. unfold prog_bind. rewrite Hb.
  destruct (b2 a s) as [[[]|e] s1]; [apply IH | reflexivity].
Qed.

(** [append_records] for a loop body written in any way. *)
Lemma append_records_body (l : loc) (body : string -> prog world unit)
  (lines recs : list string) (w : world) :
  (forall line w0,
      body line w0
      = (if Str.contains "SIM_TRACE_LOG" line
         then (parts <- lift (trace_parts line) ;;
               list_append l (Str.join "," parts))%prog
         else prog_ret tt) w0) ->
  trace_lines lines recs ->
  for_each lines body w
  = (Ok tt, {| heap := alter (fun old => old ++ recs) l (heap w);
               stdout := stdout w |}).
Proof.
  intros Hbody Hlines. rewrite (for_each_ext _ _ _ _ Hbody).
  apply append_records. exact Hlines.
Qed.

(** X1: called without a list, [load_single_file] returns a new list that
    holds the records of the lines of the file, in the order of the lines:
    of each line with the marker, the text from the first
    ["SIM_TRACE_LOG:"] to the next tab or the end of the line. *)
Theorem load_single_file_collects (fname : string) (lines recs : list string)
  (w : world) :
  fs !! fname = Some lines -> trace_lines lines recs ->
  load_single_file fs fname None w
  = (Ok (length (heap w)), {| heap := heap w ++ [recs]; stdout := stdout w |}).
Proof.
  intros Hfile Hlines. unfold load_single_file, truth, open_readlines.
  rewrite Hfile. cbv [prog_bind prog_ret new_list lift].
  match goal with
  | |- context [for_each lines ?body ?w0] =>
      rewrite (append_records_body _ body lines recs w0 (fun _ _ => eq_refl)
                 Hlines)
  end.
  cbn [heap stdout]. rewrite alter_fresh. reflexivity.
Qed.

(** X2: handed a list that already holds a record, [load_single_file]
    appends the records of the file to that very list and returns it. *)
Theorem load_single_file_appends (fname : string) (lines recs old : list string)
  (l : loc) (w : world) :
  fs !! fname = Some lines -> trace_lines lines recs ->
  heap w !! l = Some old -> old <> [] ->
  load_single_file fs fname (Some l) w
  = (Ok l, {| heap := <[l := old ++ recs]> (heap w); stdout := stdout w |}).
Proof.
  intros Hfile Hlines Hl Hold. unfold load_single_file, truth, open_readlines.
  rewrite Hfile. cbv [prog_bind prog_ret list_read lift].
  rewrite Hl. cbn [default from_option id].
  destruct old as [|x old]; [contradiction|].
  match goal with
  | |- context [for_each lines ?body ?w0] =>
      rewrite (append_records_body _ body lines recs w0 (fun _ _ => eq_refl)
                 Hlines)
  end.
  rewrite (alter_insert _ _ _ _ Hl). reflexivity.
Qed.

Lemma trace_parts_without_colon (line : string) :
  Str.contains "SIM_TRACE_LOG:" line = false ->
  trace_parts line = Raise IndexError.
Proof.
  intros Hc. unfold trace_parts. rewrite (split_absent _ _ Hc). reflexivity.
Qed.

(** X3: a line that holds the marker without its colon stops the load with
    an index error; the records of the lines before it are in the list, the
    lines after it are not read. *)
Theorem load_single_file_marker_without_colon (fname : string)
  (good rest recs : list string) (bad : string) (w : world) :
  fs !! fname = Some (good ++ bad :: rest) -> trace_lines good recs ->
  Str.contains "SIM_TRACE_LOG" bad = true ->
  Str.contains "SIM_TRACE_LOG:" bad = false ->
  load_single_file fs fname None w
  = (Raise IndexError, {| heap := heap w ++ [recs]; stdout := stdout w |}).
Proof.
  intros Hfile Hgood Hmark Hcolon.
  unfold load_single_file, truth, open_readlines.
  rewrite Hfile. cbv [prog_bind prog_ret new_list lift].
  rewrite for_each_app.
  match goal with
  | |- context [for_each good ?body ?w0] =>
      rewrite (append_records_body _ body good recs w0 (fun _ _ => eq_refl)
                 Hgood)
  end.
  cbn [for_each]. rewrite Hmark, (trace_parts_without_colon _ Hcolon).
  cbv [prog_bind lift]. cbn [heap stdout].
  rewrite alter_fresh. reflexivity.
Qed.

(** X4: a missing file is a [FileNotFoundError] whatever list is handed
    over; no list is changed and nothing is printed. *)
Theorem load_single_file_missing (fname : string) (data : option loc)
  (w : world) :
  fs !! fname = None ->
  exists w',
    load_single_file fs fname data w = (Raise FileNotFoundError, w')
    /\ stdout w' = stdout w
    /\ forall l, (l < length (heap w))%nat -> heap w' !! l = heap w !! l.
Proof.
  intros Hfile. unfold load_single_file, truth, open_readlines.
  rewrite Hfile. cbv [prog_bind prog_ret new_list lift list_read].
  destruct data as [l|].
  - destruct (default [] (heap w !! l)); eexists; (split; [reflexivity|]);
      (split; [reflexivity|]); intros l' Hl'; cbn [heap];
      rewrite ?lookup_app_l by exact Hl'; reflexivity.
  - eexists. split; [reflexivity|]. split; [reflexivity|].
    intros l' Hl'. cbn [heap]. rewrite lookup_app_l by exact Hl'. reflexivity.
Qed.

Lemma py_index_error {A} (l : list A) (i : Z) (e : exn) :
  py_index l i = Raise e -> e = IndexError.
Proof.
  unfold py_index. destruct (_ && _)%bool; [|intros [=]; congruence].
  destruct (l !! _); [discriminate | intros [=]; congruence].
Qed.

Lemma trace_parts_error (line : string) (e : exn) :
  trace_parts line = Raise e -> e = IndexError.
Proof.
  unfold trace_parts.
  destruct (py_index (Str.split "SIM_TRACE_LOG:" line) 1) as [after|e1] eqn:H1;
    cbn [mbind result_bind].
  - destruct (py_index (Str.split Str.tab after) 0) as [field|e2] eqn:H2;
      cbn [mbind result_bind]; [discriminate|].
    intros [= <-]. eapply py_index_error. exact H2.
  - intros [= <-]. eapply py_index_error. exact H1.
Qed.

Lemma for_each_lines_error (l : loc) (lines : list string) (w w' : world)
  (e : exn) :
  for_each lines
    (fun line =>
       if Str.contains "SIM_TRACE_LOG" line
       then (parts <- lift (trace_parts line) ;;
             list_append l (Str.join "," parts))%prog
       else prog_ret tt) w = (Raise e, w') ->
  e = IndexError.
Proof.
  revert w. induction lines as [|line lines IH]; intros w; cbn [for_each].
  - discriminate.
  - unfold prog_bind at 1.
    destruct (Str.contains "SIM_TRACE_LOG" line).
    + unfold prog_bind at 1, lift.
      destruct (trace_parts line) as [parts|e1] eqn:Hparts.
      * cbn. apply IH.
      * intros [= <- _]. eapply trace_parts_error. exact Hparts.
    + cbn. apply IH.
Qed.

Lemma load_single_file_error (fname : string) (data : option loc)
  (w w' : world) (e : exn) :
  load_single_file fs fname data w = (Raise e, w') ->
  (e = FileNotFoundError /\ fs !! fname = None) \/ e = IndexError.
Proof.
  unfold load_single_file, truth, open_readlines.
  destruct (fs !! fname) as [lines|] eqn:Hfile.
  - intros Hload. right.
    destruct data as [l|];
      cbv [prog_bind prog_ret list_read new_list lift] in Hload;
      [destruct (default [] (heap w !! l))|];
      match type of Hload with
      | context [for_each lines ?body ?w0] =>
          destruct (for_each lines body w0) as [[[]|e2] w2] eqn:Hfor
      end; try discriminate; injection Hload as <- _;
      eapply for_each_lines_error; exact Hfor.
  - intros Hload. left. split; [|reflexivity].
    destruct data as [l|];
      cbv [prog_bind prog_ret list_read new_list lift] in Hload;
      [destruct (default [] (heap w !! l))|]; congruence.
Qed.

Lemma load_rollovers_error (fuel : nat) (fname : string) (data : loc) (i : nat)
  (w w' : world) (e : exn) :
  load_rollovers fuel fs fname data i w = Some (Raise e, w') -> e = IndexError.
Proof.
  revert i w. induction fuel as [|fuel IH]; intros i w; cbn [load_rollovers].
  - discriminate.
  - unfold isfile.
    destruct (bool_decide (is_Some (fs !! rollover_name fname i))) eqn:Hfile;
      [|discriminate].
    apply bool_decide_eq_true in Hfile.
    destruct (load_single_file fs (rollover_name fname i) (@Some loc data) w)
      as [[l|e1] w1] eqn:Hload.
    + apply IH.
    + intros [= <- _].
      apply load_single_file_error in Hload as [[_ Hnone]|He]; [|exact He].
      rewrite Hnone in Hfile. destruct Hfile as [? [=]].
Qed.

Lemma load_data_error (fname : string) (w w' : world) (e : exn) :
  load_data fs fname w = Some (Raise e, w') ->
  (e = FileNotFoundError /\ fs !! fname = None) \/ e = IndexError.
Proof.
  intros Hload. unfold load_data, load_data_fuel, new_list in Hload.
  destruct (load_rollovers _ _ _ _ _ _) as [[[i|e1] w1]|] eqn:Hroll;
    try discriminate.
  - unfold prog_bind at 1 in Hload.
    destruct (load_single_file fs fname _ w1) as [[l|e2] w2] eqn:Hbase.
    + exfalso. unfold prog_bind, list_read in Hload.
      destruct (1 <? i)%nat; cbv [print modify prog_ret] in Hload;
        discriminate.
    + injection Hload as <- _.
      eapply load_single_file_error. exact Hbase.
  - injection Hload as <- _. right.
    eapply load_rollovers_error. exact Hroll.
Qed.

Lemma load_data_missing_base (fname : string) (w w' : world)
  (lines : list string) :
  fs !! fname = None -> load_data fs fname w <> Some (Ok lines, w').
Proof.
  intros Hnone Hload.
  unfold load_data, load_data_fuel, new_list in Hload.
  destruct (load_rollovers _ _ _ _ _ _) as [[[i|e] w1]|]; try discriminate.
  unfold prog_bind at 1 in Hload.
  destruct (load_single_file_missing fname (@Some loc (length (heap w))) w1 Hnone)
    as (w2 & Hmiss & _).
  rewrite Hmiss in Hload. discriminate.
Qed.

(** X5: [load_data] has three outcomes: the empty list, an index error from
    a marker without its colon, or the error of a missing base file; the last
    one only when the base file is missing, and then it never returns a
    list. *)
Theorem load_data_outcomes (fname : string) (w : world) :
  exists r w',
    load_data fs fname w = Some (r, w')
    /\ (r = Ok [] \/ r = Raise IndexError \/ r = Raise FileNotFoundError)
    /\ (r = Raise FileNotFoundError -> fs !! fname = None)
    /\ (fs !! fname = None -> r <> Ok []).
Proof.
  destruct (load_data_fuel_enough fs fname w) as [[r w'] Hload].
  exists r, w'. split; [exact Hload|].
  destruct r as [lines|e].
  - pose proof (load_data_returns_nothing fs _ _ _ _ Hload) as ->.
    split; [left; reflexivity|]. split; [discriminate|].
    intros Hnone. exfalso.
    exact (load_data_missing_base fname w w' [] Hnone Hload).
  - destruct (load_data_error _ _ _ _ Hload) as [[-> Hnone]| ->].
    + split; [right; right; reflexivity|]. split; [intros _; exact Hnone|].
      discriminate.
    + split; [right; left; reflexivity|]. split; discriminate.
Qed.

(** X6: [load_to_pandas] never delivers a row: it raises, or it returns
    the table without rows that the converter makes of the empty list
    [load_data] hands it. *)
Theorem load_to_pandas_has_no_rows `{Builtins} (fname : string) (w : world) :
  exists r w',
    load_to_pandas fs fname w = Some (r, w')
    /\ (r = Ok (Frame []) \/ r = Raise IndexError \/ r = Raise FileNotFoundError).
Proof.
  destruct (load_data_fuel_enough fs fname w) as [[r w'] Hload].
  unfold load_to_pandas. rewrite Hload. destruct r as [lines|e].
  - pose proof (load_data_returns_nothing fs _ _ _ _ Hload) as ->.
    eexists _, _. split; [reflexivity|]. left. reflexivity.
  - eexists _, _. split; [reflexivity|]. right.
    destruct (load_data_error _ _ _ _ Hload) as [[-> _]| ->];
      [right | left]; reflexivity.
Qed.

End LoaderMore.

Section LoaderExamples.
Import SimulationLogsIO.

Lemma sample_trace_lines :
  trace_lines ["starting" +:+ Str.newline; sample_log_line]
    ["0,1,2.5,3.25,0.5,0.25,1.5,3,1.0,False,True,0.5,7,17.5,1591234567.5"].
Proof.
  apply trace_lines_skip; [vm_compute; reflexivity|].
  apply trace_lines_take; [|constructor].
  exists "", (Str.tab +:+ "x" +:+ Str.newline).
  split; [reflexivity|]. split; [right; eexists; reflexivity|].
  repeat split; vm_compute; reflexivity.
Qed.

Lemma load_single_file_collects_witness :
  load_single_file sample_fs "sim.log" None empty_world
  = (Ok 0%nat,
     mkWorld
       [["0,1,2.5,3.25,0.5,0.25,1.5,3,1.0,False,True,0.5,7,17.5,1591234567.5"]]
       []).
Proof.
  apply (load_single_file_collects sample_fs "sim.log"
           ["starting" +:+ Str.newline; sample_log_line]
           ["0,1,2.5,3.25,0.5,0.25,1.5,3,1.0,False,True,0.5,7,17.5,1591234567.5"]
           empty_world).
  - vm_compute. reflexivity.
  - exact sample_trace_lines.
Defined.

Lemma load_single_file_appends_witness :
  load_single_file sample_fs "sim.log" (Some 0%nat) (mkWorld [["first"]] [])
  = (Ok 0%nat,
     mkWorld
       [["first";
         "0,1,2.5,3.25,0.5,0.25,1.5,3,1.0,False,True,0.5,7,17.5,1591234567.5"]]
       []).
Proof.
  apply (load_single_file_appends sample_fs "sim.log"
           ["starting" +:+ Str.newline; sample_log_line]
           ["0,1,2.5,3.25,0.5,0.25,1.5,3,1.0,False,True,0.5,7,17.5,1591234567.5"]
           ["first"] 0%nat (mkWorld [["first"]] [])).
  - vm_compute. reflexivity.
  - exact sample_trace_lines.
  - reflexivity.
  - discriminate.
Defined.

Lemma load_single_file_marker_without_colon_witness :
  load_single_file
    {[ "sim.log" := ["starting" +:+ Str.newline; sample_log_line;
                     "SIM_TRACE_LOG 1,2"; sample_log_line] ]}
    "sim.log" None empty_world
  = (Raise IndexError,
     mkWorld
       [["0,1,2.5,3.25,0.5,0.25,1.5,3,1.0,False,True,0.5,7,17.5,1591234567.5"]]
       []).
Proof.
  apply (load_single_file_marker_without_colon _ "sim.log"
           ["starting" +:+ Str.newline; sample_log_line] [sample_log_line]
           ["0,1,2.5,3.25,0.5,0.25,1.5,3,1.0,False,True,0.5,7,17.5,1591234567.5"]
           "SIM_TRACE_LOG 1,2" empty_world).
  - vm_compute. reflexivity.
  - exact sample_trace_lines.
  - vm_compute. reflexivity.
  - vm_compute. reflexivity.
Defined.

Lemma load_single_file_missing_witness :
  exists w',
    load_single_file sample_fs "sim.log.1" None empty_world
    = (Raise FileNotFoundError, w').
Proof.
  destruct (load_single_file_missing sample_fs "sim.log.1" None empty_world)
    as (w' & Hload & _).
  - vm_compute. reflexivity.
  - exists w'. exact Hload.
Defined.

End LoaderExamples.

(** ** More on the tabular converter *)

Section ConverterMore.
Import SimulationLogsIO.
Context `{Builtins}.

Lemma mapM_app {A B} (f : A -> result B) (l1 l2 : list A) :
  result_mapM f (l1 ++ l2)
  = (bs1 ← result_mapM f l1; bs2 ← result_mapM f l2; Ok (bs1 ++ bs2)).
Proof.
  induction l1 as [|a l1 IH]; cbn [result_mapM app].
  - cbn. destruct (result_mapM f l2); reflexivity.
  - destruct (f a) as [b|e]; cbn; [|reflexivity].
    rewrite IH. destruct (result_mapM f l1) as [bs1|e]; cbn; [|reflexivity].
    destruct (result_mapM f l2); reflexivity.
Qed.

(** X7: the first record that does not parse aborts the conversion with its
    own error: the records before it are lost, the ones after it are not
    looked at. *)
Theorem convert_to_pandas_aborts (data good rest : list string) (d : string)
  (epi : Z) (rows : list Trace.t) (e : exn) :
  drop 2 data = good ++ d :: rest ->
  result_mapM (parse_trace epi) good = Ok rows ->
  parse_trace epi d = Raise e ->
  convert_to_pandas data epi = Raise e.
Proof.
  intros Hdata Hgood Hbad. unfold convert_to_pandas.
  rewrite Hdata, mapM_app, Hgood. cbn [result_mapM mbind result_bind].
  rewrite Hbad. reflexivity.
Qed.

Lemma parse_trace_zero (d : string) (r : Trace.t) : parse_trace 0 d <> Ok r.
Proof.
  unfold parse_trace. intros Hp. ok_inv Hp. discriminate Hv14.
Qed.

Lemma parse_trace_zero_well_formed (d : string) :
  well_formed d -> parse_trace 0 d = Raise ZeroDivisionError.
Proof.
  intros (f0 & f1 & f2 & f3 & f4 & f5 & f6 & f7 & f8 & f9 & f10 & f11
          & f12 & f13 & f14 & Hsplit & (episode & H0 & Hepisode) & H1 & H2
          & H3 & H4 & H5 & H6 & H7 & H8 & H11 & H12 & H13 & H14).
  apply is_ok_true in H1 as [steps H1], H2 as [vx H2],
    H3 as [vy H3], H4 as [yaw H4], H5 as [steer H5], H6 as [throttle H6],
    H7 as [action H7], H8 as [reward H8], H11 as [progress H11],
    H12 as [waypoint H12], H13 as [track_len H13], H14 as [tstamp H14].
  unfold parse_trace. rewrite Hsplit.
  rewrite (py_index_nat _ 0 f0), (py_index_nat _ 1 f1), (py_index_nat _ 2 f2),
    (py_index_nat _ 3 f3), (py_index_nat _ 4 f4), (py_index_nat _ 5 f5),
    (py_index_nat _ 6 f6), (py_index_nat _ 7 f7), (py_index_nat _ 8 f8),
    (py_index_nat _ 9 f9), (py_index_nat _ 10 f10), (py_index_nat _ 11 f11),
    (py_index_nat _ 12 f12), (py_index_nat _ 13 f13), (py_index_nat _ 14 f14)
    by reflexivity.
  simpl. rewrite H0. simpl. rewrite H1. simpl. rewrite H2. simpl.
  rewrite H3. simpl. rewrite H4. simpl. rewrite H5. simpl. rewrite H6. simpl.
  rewrite H7. simpl. rewrite H8. simpl. rewrite H11. simpl. rewrite H12.
  simpl. rewrite H13. simpl. rewrite H14. reflexivity.
Qed.

(** X8: with zero episodes per iteration no table is made of a list that
    holds a record after the first two; when its records are well formed the
    error is the division by zero. *)
Theorem convert_to_pandas_zero_division (data : list string) :
  drop 2 data <> [] ->
  is_ok (convert_to_pandas data 0) = false
  /\ (Forall well_formed (drop 2 data) ->
      convert_to_pandas data 0 = Raise ZeroDivisionError).
Proof.
  intros Hdata. unfold convert_to_pandas.
  destruct (drop 2 data) as [|d ds]; [contradiction|]. split.
  - cbn [result_mapM].
    destruct (parse_trace 0 d) as [r|e] eqn:Hd; [|reflexivity].
    exfalso. exact (parse_trace_zero d r Hd).
  - intros Hwf. apply Forall_cons in Hwf as [Hd _].
    cbn [result_mapM]. rewrite (parse_trace_zero_well_formed d Hd). reflexivity.
Qed.

Lemma py_index_Ok_lt {A} (l : list A) (i : Z) (a : A) :
  (0 <= i)%Z -> py_index l i = Ok a -> (i < Z.of_nat (length l))%Z.
Proof.
  intros Hi. unfold py_index.
  destruct (Z.ltb_spec i 0); [lia|].
  destruct (Z.leb_spec 0 i); [|lia].
  destruct (Z.ltb_spec i (Z.of_nat (length l))); [intros _; assumption|].
  discriminate.
Qed.

(** X9: a record with fewer than fifteen fields is never parsed. *)
Theorem parse_trace_needs_fifteen_fields (epi : Z) (d : string) :
  (length (Str.split "," (Str.rstrip d)) < 15)%nat ->
  is_ok (parse_trace epi d) = false.
Proof.
  intros Hlen. destruct (parse_trace epi d) as [r|e] eqn:Hp; [|reflexivity].
  exfalso. unfold parse_trace in Hp. ok_inv Hp.
  apply bind_Ok in Hv13 as (f14 & Hf14 & _).
  apply py_index_Ok_lt in Hf14; lia.
Qed.

Lemma py_index_app_l {A} (l extra : list A) (i : Z) :
  (0 <= i < Z.of_nat (length l))%Z -> py_index (l ++ extra) i = py_index l i.
Proof.
  intros Hi. unfold py_index. rewrite length_app.
  destruct (Z.ltb_spec i 0); [lia|].
  destruct (Z.leb_spec 0 i); [|lia].
  destruct (Z.ltb_spec i (Z.of_nat (length l))); [|lia].
  destruct (Z.ltb_spec i (Z.of_nat (length l + length extra))); [|lia].
  cbn [andb]. rewrite lookup_app_l by lia. reflexivity.
Qed.

(** X10: fields after the fifteenth are not looked at. *)
Theorem parse_trace_ignores_extra_fields (epi : Z) (d d' : string)
  (fields extra : list string) :
  Str.split "," (Str.rstrip d) = fields ->
  Str.split "," (Str.rstrip d') = fields ++ extra ->
  length fields = 15%nat ->
  parse_trace epi d' = parse_trace epi d.
Proof.
  intros Hd Hd' Hlen. unfold parse_trace. rewrite Hd, Hd'.
  rewrite !py_index_app_l by (rewrite Hlen; lia). reflexivity.
Qed.

(** X11: whatever the signs, the iteration is the quotient of the episode
    by the number of episodes per iteration, cut toward zero, plus one; so
    iteration 1 is that of the episodes smaller in size than the number of
    episodes per iteration, the negative ones with it. *)
Theorem iteration_truncates (epi : Z) (d : string) (r : Trace.t) :
  parse_trace epi d = Ok r ->
  (Z.abs epi < 2 ^ 53)%Z -> (Z.abs (Trace.episode r) < 2 ^ 53)%Z ->
  Trace.iteration r = (Z.quot (Trace.episode r) epi + 1)%Z
  /\ (Trace.iteration r = 1%Z <-> (Z.abs (Trace.episode r) < Z.abs epi)%Z).
Proof.
  intros Hp Hepi Hepisode.
  destruct (parse_trace_iteration epi d r Hp Hepi Hepisode) as [Hnz Hit].
  split; [exact Hit|]. rewrite Hit.
  rewrite <- (Z.quot_small_iff _ _ Hnz). lia.
Qed.

Lemma rstrip_app (d ws : string) :
  Str.rstrip ws = "" -> Str.rstrip (d +:+ ws) = Str.rstrip d.
Proof.
  intros Hws. induction d as [|c d IH]; [exact Hws|].
  rewrite string_app_cons. cbn [Str.rstrip]. rewrite IH. reflexivity.
Qed.

(** X12: white space at the end of a record, the newline of its line for
    one, makes no difference. *)
Theorem parse_trace_ignores_trailing_space (epi : Z) (d ws : string) :
  Str.rstrip ws = "" ->
  parse_trace epi (d +:+ ws) = parse_trace epi d.
Proof.
  intros Hws. unfold parse_trace. rewrite (rstrip_app d ws Hws). reflexivity.
Qed.

End ConverterMore.

Section ConverterExamples.
Import SimulationLogsIO.

Lemma convert_to_pandas_aborts_witness :
  @convert_to_pandas plain_casts
    ["a"; "b"; sample_record "0"; "garbage"; sample_record "1"] 20
  = Raise ValueError.
Proof.
  eapply (@convert_to_pandas_aborts plain_casts _ [sample_record "0"]
            [sample_record "1"] "garbage" 20).
  - reflexivity.
  - vm_compute. reflexivity.
  - vm_compute. reflexivity.
Defined.

Lemma convert_to_pandas_zero_division_witness :
  @convert_to_pandas plain_casts sample_data 0 = Raise ZeroDivisionError.
Proof.
  refine (proj2 (@convert_to_pandas_zero_division plain_casts sample_data _) _).
  - discriminate.
  - repeat constructor; unfold well_formed;
      do 15 eexists; (split; [vm_compute; reflexivity|]);
      (split; [eexists; split; [vm_compute; reflexivity | reflexivity]|]);
      vm_compute; repeat split.
Defined.

Lemma parse_trace_needs_fifteen_fields_witness :
  is_ok (@parse_trace plain_casts 20 "0,1,2.5") = false.
Proof.
  apply (@parse_trace_needs_fifteen_fields plain_casts 20 "0,1,2.5").
  vm_compute. lia.
Defined.

Lemma parse_trace_ignores_extra_fields_witness :
  @parse_trace plain_casts 20
    "0,1,2.5,3.25,0.5,0.25,1.5,3,1.0,False,True,0.5,7,17.5,1591234567.5,9,x"
  = @parse_trace plain_casts 20 (sample_record "0").
Proof.
  eapply (@parse_trace_ignores_extra_fields plain_casts 20 (sample_record "0")
            _ _ ["9"; "x"]).
  - reflexivity.
  - vm_compute. reflexivity.
  - vm_compute. reflexivity.
Defined.

Lemma iteration_truncates_witness :
  exists r,
    @parse_trace plain_casts 20 (sample_record "-19") = Ok r
    /\ Trace.iteration r = 1%Z.
Proof.
  eexists. split; [vm_compute; reflexivity|].
  apply (proj2 (@iteration_truncates plain_casts 20 (sample_record "-19") _
                  eq_refl eq_refl eq_refl)).
  vm_compute. reflexivity.
Defined.

Lemma parse_trace_ignores_trailing_space_witness :
  @parse_trace plain_casts 20 (sample_record "0" +:+ " " +:+ Str.newline)
  = @parse_trace plain_casts 20 (sample_record "0").
Proof.
  apply (@parse_trace_ignores_trailing_space plain_casts).
  vm_compute. reflexivity.
Defined.

End ConverterExamples.

(** ** More on the aggregator *)

Section AggregatorMore.
Context `{Numpy}.
Variable firstgroup : Trace.t -> Z.

Lemma aggregate_keys (ts ie : bool) (df : DataFrame) (ks : list key) :
  map (fun a => (Agg.group a, Agg.episode a))
      (map (episode_aggregate firstgroup ts ie df) ks) = ks.
Proof.
  rewrite map_map. rewrite <- (map_id ks) at 2. apply map_ext.
  intros [k1 k2]. reflexivity.
Qed.

Lemma length_insert_key (k : key) (ks : list key) :
  (length (insert_key k ks) <= S (length ks))%nat.
Proof.
  induction ks as [|h t IH]; cbn [insert_key length]; [lia|].
  destruct (key_ltb k h); [cbn [length]; lia|].
  destruct (key_eqb k h); cbn [length]; lia.
Qed.

Lemma length_sorted_keys (ks : list key) :
  (length (sorted_keys ks) <= length ks)%nat.
Proof.
  unfold sorted_keys. induction ks as [|k ks IH]; cbn [foldr length]; [lia|].
  pose proof (length_insert_key k (foldr insert_key [] ks)). lia.
Qed.

(** X13: the aggregates come out in ascending order of
    [(firstgroup, episode)], one for each pair that occurs in the table and
    for no other, whatever the order of the rows of the table. *)
Theorem simulation_agg_sorted (add_timestamp is_eval : bool) (e e' : env)
  (res : list Agg.t) :
  simulation_agg firstgroup add_timestamp is_eval e = (Ok res, e') ->
  let keys := map (fun a => (Agg.group a, Agg.episode a)) res in
  StronglySorted key_lt keys
  /\ (forall k, k ∈ keys
                <-> exists r, r ∈ traces (panda e) /\ key_of firstgroup r = k)
  /\ (length res <= length (traces (panda e)))%nat.
Proof.
  intros Hagg. apply simulation_agg_rows in Hagg as [-> _]. cbv zeta.
  rewrite aggregate_keys. split; [apply sorted_keys_sorted|]. split.
  - intros k. apply elem_of_group_keys.
  - rewrite length_map. unfold group_keys.
    pose proof (length_sorted_keys (map (key_of firstgroup) (traces (panda e)))).
    rewrite length_map in *. assumption.
Qed.

(** X14: in evaluation mode, and on a table that has its [new_reward]
    column, the aggregator leaves the table as it is and prints nothing. *)
Theorem simulation_agg_leaves_table (add_timestamp is_eval : bool) (e : env) :
  is_eval = true \/ "new_reward" ∈ columns (panda e) ->
  (simulation_agg firstgroup add_timestamp is_eval e).2 = e.
Proof.
  intros Hcase. rewrite simulation_agg_closed. cbn [snd]. unfold after_agg.
  destruct is_eval; [reflexivity|].
  destruct Hcase as [[=]|Hcol].
  destruct (panda e) as [rows|rows] eqn:Hpanda; [|reflexivity].
  exfalso. pose proof (new_reward_in_columns (Frame rows)) as Hnr.
  cbv beta iota in Hnr. apply bool_decide_eq_false in Hnr. contradiction.
Qed.

Lemma dec_sub_diag (d : Decimal) : dec_sub d d = mkDecimal 0 (dexp d).
Proof.
  unfold dec_sub, dec_align. rewrite Z.min_id, Z.sub_diag.
  reflexivity.
Qed.

Lemma float_of_decimal_zero (e : Z) : float_of_decimal (mkDecimal 0 e) = 0%float.
Proof.
  unfold float_of_decimal. cbn [dexp dcoef].
  destruct (Z.leb_spec 0 e); [reflexivity|].
  assert (0 < 10 ^ (- e))%Z as Hpos by (apply Z.pow_pos_nonneg; lia).
  destruct (10 ^ (- e))%Z; try lia. reflexivity.
Qed.

Lemma np_max_single (p : float) : np_max [p] = p.
Proof. reflexivity. Qed.

(** X15: an episode with a single row reports the steps, the waypoint and
    the progress of that row and an elapsed time of zero, so that its
    [time_if_complete] is zero over its progress. *)
Theorem simulation_agg_single_row (add_timestamp is_eval : bool) (e e' : env)
  (res : list Agg.t) (a : Agg.t) (r : Trace.t) :
  simulation_agg firstgroup add_timestamp is_eval e = (Ok res, e') ->
  a ∈ res ->
  group_traces firstgroup (Agg.group a, Agg.episode a) (panda e) = [r] ->
  Agg.steps a = Trace.steps r
  /\ Agg.start_at a = Trace.closest_waypoint r
  /\ Agg.progress a = Trace.progress r
  /\ Agg.time a = 0%float
  /\ Agg.time_if_complete a = (0 / Trace.progress r)%float.
Proof.
  intros Hagg Ha Hgroup. apply simulation_agg_rows in Hagg as [-> _].
  apply list_elem_of_fmap in Ha as ([k1 k2] & -> & _).
  cbn [episode_aggregate Agg.group Agg.episode Agg.steps Agg.start_at
       Agg.progress Agg.time Agg.time_if_complete fst snd] in *.
  rewrite Hgroup. cbn [map np_ptp fold_left].
  rewrite dec_sub_diag, float_of_decimal_zero.
  repeat split; reflexivity.
Qed.

Lemma filter_length_mono {A} (P Q : A -> bool) (l : list A) :
  (forall x, P x = true -> Q x = true) ->
  (length (List.filter P l) <= length (List.filter Q l))%nat.
Proof.
  intros HPQ. induction l as [|x l IH]; cbn [List.filter]; [lia|].
  destruct (P x) eqn:HP.
  - rewrite (HPQ x HP). cbn [length]. lia.
  - destruct (Q x); cbn [length]; lia.
Qed.

(** A later episode never gets an earlier label. *)
Lemma cut_code_mono (mn mx : Z) (bins : nat) (v v' : Z) :
  (v <= v')%Z -> (cut_code mn mx bins v <= cut_code mn mx bins v')%nat.
Proof.
  intros Hv. unfold cut_code. apply filter_length_mono. intros j.
  destruct (mn =? mx)%Z; [tauto|].
  rewrite !Z.ltb_lt. intros Hj.
  assert (Z.of_nat bins * (v - mn) <= Z.of_nat bins * (v' - mn))%Z; [|lia].
  apply Z.mul_le_mono_nonneg_l; lia.
Qed.

Lemma cut_code_least (mn mx : Z) : (mn < mx)%Z -> cut_code mn mx 5 mn = 0%nat.
Proof.
  intros Hlt. unfold cut_code.
  destruct (Z.eqb_spec mn mx); [lia|].
  cbn [seq Nat.sub List.filter].
  rewrite !(proj2 (Z.ltb_ge _ _)) by lia. reflexivity.
Qed.

Lemma cut_code_greatest (mn mx : Z) : (mn < mx)%Z -> cut_code mn mx 5 mx = 4%nat.
Proof.
  intros Hlt. unfold cut_code.
  destruct (Z.eqb_spec mn mx); [lia|].
  cbn [seq Nat.sub List.filter].
  rewrite !(proj2 (Z.ltb_lt _ _)) by lia. reflexivity.
Qed.

Lemma fold_min_elem (t : list Z) (h : Z) : fold_left Z.min t h ∈ h :: t.
Proof.
  revert h. induction t as [|x t IH]; intros h; cbn [fold_left].
  - apply list_elem_of_here.
  - specialize (IH (Z.min h x)). apply elem_of_cons in IH as [->|IH].
    + destruct (Z.min_spec h x) as [[_ ->]|[_ ->]].
      * apply list_elem_of_here.
      * apply list_elem_of_further, list_elem_of_here.
    + do 2 apply list_elem_of_further. exact IH.
Qed.

Lemma fold_max_elem (t : list Z) (h : Z) : fold_left Z.max t h ∈ h :: t.
Proof.
  revert h. induction t as [|x t IH]; intros h; cbn [fold_left].
  - apply list_elem_of_here.
  - specialize (IH (Z.max h x)). apply elem_of_cons in IH as [->|IH].
    + destruct (Z.max_spec h x) as [[_ ->]|[_ ->]].
      * apply list_elem_of_further, list_elem_of_here.
      * apply list_elem_of_here.
    + do 2 apply list_elem_of_further. exact IH.
Qed.

Lemma quintile_label_some (i : nat) :
  (i < 5)%nat ->
  Some (default "" (quintile_labels !! i)) = quintile_labels !! i.
Proof. intros Hi. do 5 (destruct i as [|i]; [reflexivity|]). lia. Qed.

(** X16: the labels follow the episodes: of two aggregates the one with the
    later episode never has the earlier label; and when the episodes differ,
    the first one is labelled 1st and the last one 5th. *)
Theorem simulation_agg_quintile_order (add_timestamp : bool) (e e' : env)
  (res : list Agg.t) :
  simulation_agg firstgroup add_timestamp false e = (Ok res, e') ->
  (forall a b, a ∈ res -> b ∈ res ->
     (Agg.episode a <= Agg.episode b)%Z ->
     exists i j : nat,
       (i <= j < 5)%nat
       /\ Agg.quintile a = quintile_labels !! i
       /\ Agg.quintile b = quintile_labels !! j)
  /\ (forall a b, a ∈ res -> b ∈ res ->
        (forall c, c ∈ res -> (Agg.episode a <= Agg.episode c <= Agg.episode b)%Z) ->
        (Agg.episode a < Agg.episode b)%Z ->
        Agg.quintile a = Some "1st" /\ Agg.quintile b = Some "5th").
Proof.
  intros Hagg. apply simulation_agg_rows in Hagg as [-> _].
  set (df := panda e). set (ks := group_keys firstgroup df).
  set (es := map snd ks).
  assert (forall a, a ∈ map (episode_aggregate firstgroup add_timestamp false df) ks ->
            Agg.episode a ∈ es
            /\ Agg.quintile a
               = quintile_labels
                   !! cut_code (np_min_int es) (np_max_int es) 5 (Agg.episode a))
    as Hrow.
  { intros a Ha. apply list_elem_of_fmap in Ha as (k & -> & Hk). split.
    - apply list_elem_of_fmap. exists k. split; [reflexivity | exact Hk].
    - cbn [episode_aggregate Agg.quintile Agg.episode]. unfold cut_label.
      apply quintile_label_some, cut_code_lt. }
  split.
  - intros a b Ha Hb Hle.
    destruct (Hrow a Ha) as [_ Hqa], (Hrow b Hb) as [_ Hqb].
    eexists _, _. split; [|split; [exact Hqa | exact Hqb]]. split.
    + apply cut_code_mono. exact Hle.
    + apply cut_code_lt.
  - intros a b Ha Hb Hall Hlt.
    destruct (Hrow a Ha) as [Hea Hqa], (Hrow b Hb) as [Heb Hqb].
    assert (forall x, x ∈ es -> (Agg.episode a <= x <= Agg.episode b)%Z) as Hes.
    { intros x Hx. apply list_elem_of_fmap in Hx as (k & -> & Hk).
      apply (Hall (episode_aggregate firstgroup add_timestamp false df k)).
      apply list_elem_of_fmap. exists k. split; [reflexivity | exact Hk]. }
    assert (np_min_int es = Agg.episode a) as Hmin.
    { pose proof (np_min_max_bounds es _ Hea) as [Hlo _].
      destruct es as [|h t] eqn:Ees; [inversion Hea|].
      pose proof (fold_min_elem t h) as Hin. apply Hes in Hin.
      cbn [np_min_int] in *. lia. }
    assert (np_max_int es = Agg.episode b) as Hmax.
    { pose proof (np_min_max_bounds es _ Heb) as [_ Hhi].
      destruct es as [|h t] eqn:Ees; [inversion Heb|].
      pose proof (fold_max_elem t h) as Hin. apply Hes in Hin.
      cbn [np_max_int] in *. lia. }
    rewrite Hqa, Hqb, Hmin, Hmax.
    rewrite cut_code_least, cut_code_greatest by exact Hlt.
    split; reflexivity.
Qed.

(** X17: which columns the aggregate has: [new_reward], [reward],
    [reward_if_complete] and [quintile] outside evaluation mode only, and
    [timestamp] only when it is asked for. *)
Theorem simulation_agg_columns (add_timestamp is_eval : bool) (e e' : env)
  (res : list Agg.t) :
  simulation_agg firstgroup add_timestamp is_eval e = (Ok res, e') ->
  Forall (fun a =>
            (is_Some (Agg.new_reward a) <-> is_eval = false)
            /\ (is_Some (Agg.reward a) <-> is_eval = false)
            /\ (is_Some (Agg.reward_if_complete a) <-> is_eval = false)
            /\ (is_Some (Agg.quintile a) <-> is_eval = false)
            /\ (is_Some (Agg.timestamp a) <-> add_timestamp = true)) res.
Proof.
  intros Hagg. rewrite simulation_agg_closed in Hagg.
  injection Hagg as Hagg _. unfold aggregate_table in Hagg. ok_inv Hagg.
  injection Hagg as <-. apply Forall_forall. intros a Ha.
  apply list_elem_of_fmap in Ha as (k & -> & Hk).
  cbn [episode_aggregate Agg.new_reward Agg.reward Agg.reward_if_complete
       Agg.quintile Agg.timestamp].
  assert (forall (A : Type) (x : A), is_Some (Some x)) as Hsome by eauto.
  assert (forall A : Type, ~ is_Some (@None A)) as Hnone.
  { intros A [x [=]]. }
  repeat split; try (destruct is_eval; intros; first [discriminate | reflexivity
    | apply Hsome | exfalso; eapply Hnone; eassumption]).
  - intros Hts. destruct add_timestamp; [reflexivity|].
    exfalso. eapply Hnone. exact Hts.
  - intros ->. pose proof (mapM_Ok_all _ _ _ Hv0 k Hk) as Hok.
    cbv beta in Hok. destruct (pd_to_datetime _); [apply Hsome | discriminate].
Qed.

End AggregatorMore.

Lemma simulation_agg_sorted_witness :
  exists res e',
    @simulation_agg plain_numpy Trace.iteration false false
      (sample_env sample_table) = (Ok res, e')
    /\ StronglySorted key_lt (map (fun a => (Agg.group a, Agg.episode a)) res).
Proof.
  eexists _, _. split; [vm_compute; reflexivity|].
  eapply (@simulation_agg_sorted plain_numpy Trace.iteration false false
            (sample_env sample_table)).
  vm_compute. reflexivity.
Defined.

Lemma simulation_agg_leaves_table_witness :
  (@simulation_agg plain_numpy Trace.iteration false true
     (sample_env sample_table)).2 = sample_env sample_table.
Proof.
  apply (@simulation_agg_leaves_table plain_numpy Trace.iteration false true
           (sample_env sample_table)).
  left. reflexivity.
Defined.

Lemma simulation_agg_single_row_witness :
  exists res e' a,
    @simulation_agg plain_numpy Trace.iteration false false
      (sample_env sample_table) = (Ok res, e')
    /\ a ∈ res /\ Agg.episode a = 1%Z /\ Agg.time a = 0%float.
Proof.
  eexists _, _, _. split; [vm_compute; reflexivity|].
  split; [right; left|]. split; [reflexivity|].
  eapply (@simulation_agg_single_row plain_numpy Trace.iteration false false
            (sample_env sample_table)).
  - vm_compute. reflexivity.
  - right. left.
  - vm_compute. reflexivity.
Defined.

Lemma simulation_agg_quintile_order_witness :
  exists res e',
    @simulation_agg plain_numpy Trace.iteration false false
      (sample_env uneven_table) = (Ok res, e')
    /\ forall a b, a ∈ res -> b ∈ res ->
         (forall c, c ∈ res ->
            (Agg.episode a <= Agg.episode c <= Agg.episode b)%Z) ->
         (Agg.episode a < Agg.episode b)%Z ->
         Agg.quintile a = Some "1st" /\ Agg.quintile b = Some "5th".
Proof.
  eexists _, _. split; [vm_compute; reflexivity|].
  eapply (@simulation_agg_quintile_order plain_numpy Trace.iteration false
            (sample_env uneven_table)).
  vm_compute. reflexivity.
Defined.

Lemma simulation_agg_columns_witness :
  exists res e',
    @simulation_agg plain_numpy Trace.iteration false true
      (sample_env sample_table) = (Ok res, e')
    /\ Forall (fun a => ~ is_Some (Agg.reward a)) res.
Proof.
  eexists _, _. split; [vm_compute; reflexivity|].
  eapply Forall_impl.
  - eapply (@simulation_agg_columns plain_numpy Trace.iteration false true
              (sample_env sample_table)).
    vm_compute. reflexivity.
  - intros a (_ & Hreward & _) Hsome. apply Hreward in Hsome. discriminate.
Defined.

(** ** From the converter to the aggregator *)

Section Pipeline.
Import SimulationLogsIO.
Context `{Builtins} `{Numpy}.

Lemma mapM_Ok_elem {A B} (f : A -> result B) (l : list A) (bs : list B) (b : B) :
  result_mapM f l = Ok bs -> b ∈ bs -> exists a, a ∈ l /\ f a = Ok b.
Proof.
  revert bs. induction l as [|a l IH]; intros bs Hl Hb; cbn [result_mapM] in Hl.
  - injection Hl as <-. inversion Hb.
  - ok_inv Hl. injection Hl as <-. apply elem_of_cons in Hb as [->|Hb].
    + exists a. split; [apply list_elem_of_here | exact Hv].
    + destruct (IH _ Hv0 Hb) as (a' & Ha' & Hf).
      exists a'. split; [apply list_elem_of_further, Ha' | exact Hf].
Qed.

(** The iteration of a parsed record is derived from its episode alone. *)
Lemma parse_trace_derives (epi : Z) (d : string) (r : Trace.t) :
  parse_trace epi d = Ok r ->
  Z.succ <$> int_truediv (Trace.episode r) epi = Ok (Trace.iteration r).
Proof.
  unfold parse_trace. intros Hp. ok_inv Hp. injection Hp as <-. exact Hv14.
Qed.

(** X22: in a table made by [convert_to_pandas] the episode settles the
    iteration, so that the aggregator, grouping by iteration and episode,
    returns one aggregate for each episode number of the table. *)
Theorem simulation_agg_one_row_per_episode (data : list string) (epi : Z)
  (df : DataFrame) (add_timestamp is_eval : bool) (out : list string)
  (res : list Agg.t) (e' : env) :
  convert_to_pandas data epi = Ok df ->
  simulation_agg Trace.iteration add_timestamp is_eval (mkEnv df out)
  = (Ok res, e') ->
  NoDup (map Agg.episode res)
  /\ (forall ep, ep ∈ map Agg.episode res
                 <-> exists r, r ∈ traces df /\ Trace.episode r = ep).
Proof.
  intros Hconv Hagg. apply simulation_agg_rows in Hagg as [-> _].
  cbn [panda]. unfold convert_to_pandas in Hconv. ok_inv Hconv.
  injection Hconv as <-. cbn [traces] in *.
  assert (forall r1 r2, r1 ∈ v -> r2 ∈ v -> Trace.episode r1 = Trace.episode r2 ->
                        Trace.iteration r1 = Trace.iteration r2) as Hiter.
  { intros r1 r2 Hr1 Hr2 Hep.
    destruct (mapM_Ok_elem _ _ _ _ Hv Hr1) as (d1 & _ & Hd1).
    destruct (mapM_Ok_elem _ _ _ _ Hv Hr2) as (d2 & _ & Hd2).
    apply parse_trace_derives in Hd1, Hd2. rewrite Hep in Hd1.
    rewrite Hd1 in Hd2. injection Hd2 as ->. reflexivity. }
  rewrite map_map.
  assert (map (fun k => Agg.episode (episode_aggregate Trace.iteration
                                       add_timestamp is_eval (Frame v) k))
              (group_keys Trace.iteration (Frame v))
          = snd <$> group_keys Trace.iteration (Frame v)) as ->.
  { apply map_ext. intros [k1 k2]. reflexivity. }
  split.
  - apply NoDup_fmap_2_strong; [|apply group_keys_NoDup].
    intros [i1 e1] [i2 e2] Hk1 Hk2 Heq. cbn in Heq. subst e2.
    apply elem_of_group_keys in Hk1 as (r1 & Hr1 & Hkey1).
    apply elem_of_group_keys in Hk2 as (r2 & Hr2 & Hkey2).
    unfold key_of in *. injection Hkey1 as <- He1. injection Hkey2 as <- He2.
    f_equal. apply Hiter; [exact Hr1 | exact Hr2 | rewrite He1, He2; reflexivity].
  - intros ep. rewrite list_elem_of_fmap. split.
    + intros ([i ep'] & -> & Hk).
      apply elem_of_group_keys in Hk as (r & Hr & Hkey).
      exists r. split; [exact Hr|]. unfold key_of in Hkey.
      injection Hkey as _ Hep. exact Hep.
    + intros (r & Hr & <-). exists (key_of Trace.iteration r).
      split; [reflexivity|]. apply elem_of_group_keys. eauto.
Qed.

End Pipeline.

Lemma simulation_agg_one_row_per_episode_witness :
  exists df res e',
    @SimulationLogsIO.convert_to_pandas plain_casts sample_data 20 = Ok df
    /\ @simulation_agg plain_numpy Trace.iteration false false (mkEnv df [])
       = (Ok res, e')
    /\ NoDup (map Agg.episode res).
Proof.
  eexists _, _, _. split; [vm_compute; reflexivity|].
  split; [vm_compute; reflexivity|].
  refine (proj1 (@simulation_agg_one_row_per_episode plain_casts plain_numpy
                   sample_data 20 _ false false [] _ _ _ _)).
  - vm_compute. reflexivity.
  - vm_compute. reflexivity.
Defined.

(** ** More on the waypoints that bracket the car *)

Lemma py_index_Ok_range {A} (l : list A) (i : Z) (a : A) :
  py_index l i = Ok a ->
  (- Z.of_nat (length l) <= i < Z.of_nat (length l))%Z.
Proof.
  unfold py_index. set (n := Z.of_nat (length l)).
  destruct (Z.ltb_spec i 0).
  - destruct (Z.leb_spec 0 (i + n)); [|discriminate]. intros _. lia.
  - destruct (Z.leb_spec 0 i); [|lia].
    destruct (Z.ltb_spec i n); [|discriminate]. intros _. lia.
Qed.

(** X18: [df_to_params] returns only for a recorded waypoint [w] with
    [-n < w < n], where [n] is the number of waypoints: beyond that range,
    and on a track without waypoints, indexing fails. *)
Theorem df_to_params_bounds {T : Type} `{Coordinate T} `{GeometryUtils T}
  (waypoint : Z) (x y : T) (waypoints : list (T * T))
  (p : NewRewardUtils.Params T) :
  NewRewardUtils.df_to_params waypoint x y waypoints = Ok p ->
  (- Z.of_nat (length waypoints) < waypoint < Z.of_nat (length waypoints))%Z.
Proof.
  intros Hp. unfold NewRewardUtils.df_to_params in Hp. cbv zeta in Hp.
  ok_inv Hp.
  apply py_index_Ok_range in Hv, Hv0. lia.
Qed.

Lemma py_index_from_end {A} (l : list A) (k : nat) (a : A) :
  (0 < k <= length l)%nat -> l !! (length l - k)%nat = Some a ->
  py_index l (- Z.of_nat k) = Ok a.
Proof.
  intros Hk Ha. unfold py_index.
  destruct (Z.ltb_spec (- Z.of_nat k) 0); [|lia].
  destruct (Z.leb_spec 0 (- Z.of_nat k + Z.of_nat (length l))); [|lia].
  destruct (Z.ltb_spec (- Z.of_nat k + Z.of_nat (length l))
              (Z.of_nat (length l))); [|lia].
  cbn [andb].
  replace (Z.to_nat (- Z.of_nat k + Z.of_nat (length l)))
    with (length l - k)%nat by lia.
  rewrite Ha. reflexivity.
Qed.

Lemma py_index_first {A} (l : list A) (a : A) :
  l !! 0%nat = Some a -> py_index l 0 = Ok a.
Proof. exact (py_index_nat l 0 a). Qed.

(** X19: the index before the recorded waypoint is not brought into range.
    When the recorded waypoint is the first one and the helper finds the
    projection of the car on the segment from the last waypoint to the
    first, the pair returned is [-1, 0]; on a track whose last waypoint
    repeats the first, the segment starts at the last but one and the pair
    is [-2, 0]. *)
Theorem df_to_params_before_first {T : Type} `{Coordinate T}
  `{GeometryUtils T} (waypoints : list (T * T)) (a b : T * T) (x y : T) :
  let n := length waypoints in
  let before := if NewRewardUtils.same_point b a then 2%nat else 1%nat in
  forall a' : T * T,
    (before <= n)%nat ->
    waypoints !! 0%nat = Some b ->
    waypoints !! (n - 1)%nat = Some a ->
    waypoints !! (n - before)%nat = Some a' ->
    let cp := get_a_point_on_a_line_closest_to_point a' b (x, y) in
    is_point_roughly_on_the_line a' b cp.1 cp.2 = true ->
    NewRewardUtils.df_to_params 0 x y waypoints
    = Ok (NewRewardUtils.mkParams [- Z.of_nat before; 0]%Z cp).
Proof.
  intros n before a' Hbefore Hb Ha Ha' cp Hon.
  pose proof (lookup_lt_Some _ _ _ Hb) as Hlen. fold n in Hlen.
  unfold NewRewardUtils.df_to_params. cbv zeta.
  rewrite (py_index_first _ b Hb). cbn [mbind result_bind].
  change (0 - 1)%Z with (- Z.of_nat 1)%Z.
  rewrite (py_index_from_end _ 1 a) by (fold n; first [lia | exact Ha]).
  cbn [mbind result_bind].
  destruct (py_index_in_range waypoints
              ((0 + 1) `mod` Z.of_nat (length waypoints))) as [la Hla].
  { apply Z.mod_pos_bound. fold n. lia. }
  rewrite Hla. cbn [mbind result_bind].
  assert (py_index waypoints
            (if NewRewardUtils.same_point b a
             then (- Z.of_nat 1 - 1)%Z else (- Z.of_nat 1)%Z) = Ok a') as ->.
  { subst before. destruct (NewRewardUtils.same_point b a).
    - change (- Z.of_nat 1 - 1)%Z with (- Z.of_nat 2)%Z.
      apply py_index_from_end; [fold n; lia | exact Ha'].
    - apply py_index_from_end; [fold n; lia | exact Ha']. }
  cbn [mbind result_bind]. fold cp. rewrite Hon.
  subst before. destruct (NewRewardUtils.same_point b a); reflexivity.
Qed.

Lemma df_to_params_bounds_witness :
  (- Z.of_nat (length straight_track) < 1 < Z.of_nat (length straight_track))%Z.
Proof.
  eapply (@df_to_params_bounds Q Q_coordinate Q_geometry 1 30%Q 0%Q
            straight_track).
  vm_compute. reflexivity.
Defined.

Lemma df_to_params_before_first_witness :
  exists cp,
    NewRewardUtils.df_to_params 0 50%Q 0%Q straight_track
    = Ok (NewRewardUtils.mkParams [-1; 0]%Z cp).
Proof.
  eexists.
  apply (@df_to_params_before_first Q Q_coordinate Q_geometry straight_track
           (200, 0)%Q (0, 0)%Q 50%Q 0%Q (200, 0)%Q).
  - vm_compute. lia.
  - reflexivity.
  - reflexivity.
  - reflexivity.
  - vm_compute. reflexivity.
Defined.

(** ** The reward grid of [plot_track] *)

Section Track.
Import PlottingUtils.
Variable track_size : Z * Z.
Variables x_shift y_shift : Z.

Lemma axis_index_clipped (n v : Z) :
  axis_index n (if (n <=? v)%Z then (n - 1)%Z else v)
  = match axis_cell n v with Some i => Ok i | None => Raise IndexError end.
Proof.
  unfold axis_index, axis_cell.
  destruct (Z.leb_spec n v).
  - destruct (Z.ltb_spec 0 n).
    + destruct (Z.ltb_spec (n - 1) 0); [lia|].
      destruct (Z.leb_spec 0 (n - 1)); [|lia].
      destruct (Z.ltb_spec (n - 1) n); [reflexivity | lia].
    + destruct (Z.ltb_spec (n - 1) 0); [|lia].
      destruct (Z.leb_spec 0 (n - 1 + n)); [lia | reflexivity].
  - destruct (Z.ltb_spec v 0).
    + destruct (Z.leb_spec 0 v); [lia|].
      destruct (Z.leb_spec (- n) v).
      * destruct (Z.leb_spec 0 (v + n)); [|lia].
        destruct (Z.ltb_spec (v + n) n); [reflexivity | lia].
      * destruct (Z.leb_spec 0 (v + n)); [lia | reflexivity].
    + destruct (Z.leb_spec 0 v); [|lia].
      destruct (Z.ltb_spec v n); [reflexivity | lia].
Qed.

Lemma axis_cell_lt (n v : Z) (i : nat) :
  axis_cell n v = Some i -> (i < Z.to_nat n)%nat.
Proof.
  unfold axis_cell.
  destruct (Z.leb_spec n v).
  - destruct (Z.ltb_spec 0 n); [|discriminate]. intros [= <-]. lia.
  - destruct (Z.leb_spec 0 v); [intros [= <-]; lia|].
    destruct (Z.leb_spec (- n) v); [|discriminate]. intros [= <-]. lia.
Qed.

Lemma turn_cell (track : list (list float)) (row : Trace.t) :
  match track_cell track_size x_shift y_shift row with
  | Some (i, j) =>
      plot_track_turn track_size x_shift y_shift track row
      = Ok (alter (fun r => <[j := Trace.reward row]> r) i track)
  | None => is_ok (plot_track_turn track_size x_shift y_shift track row) = false
  end.
Proof.
  unfold plot_track_turn, track_cell, grid_set.
  destruct (float_to_Z (Trace.x row)) as [x|e]; [|reflexivity].
  destruct (float_to_Z (Trace.y row)) as [y|e]; [|reflexivity].
  cbn [fmap result_fmap mbind result_bind]. cbv zeta.
  rewrite !axis_index_clipped.
  destruct (axis_cell track_size.1 (y + y_shift)) as [i|]; [|reflexivity].
  destruct (axis_cell track_size.2 (x + x_shift)) as [j|]; reflexivity.
Qed.

Lemma grid_shape_write (h w i j : nat) (v : float) (track : list (list float)) :
  grid_shape h w track ->
  grid_shape h w (alter (fun r => <[j := v]> r) i track).
Proof.
  intros [Hh Hw]. split.
  - rewrite length_alter. exact Hh.
  - apply Forall_forall. intros r Hr.
    apply list_elem_of_lookup in Hr as [k Hk].
    rewrite list_lookup_alter in Hk. destruct (decide (i = k)) as [->|Hne].
    + destruct (track !! k) as [r0|] eqn:Hr0; [|discriminate].
      injection Hk as <-. rewrite length_insert.
      eapply Forall_lookup_1 in Hw; [exact Hw | exact Hr0].
    + eapply Forall_lookup_1 in Hw; [exact Hw | exact Hk].
Qed.

Lemma grid_cell_write (h w i j i' j' : nat) (v : float)
  (track : list (list float)) :
  grid_shape h w track -> (i < h)%nat -> (j < w)%nat ->
  grid_cell (alter (fun r => <[j := v]> r) i track) i' j'
  = if decide (i = i' /\ j = j') then Some v else grid_cell track i' j'.
Proof.
  intros [Hh Hw] Hi Hj. unfold grid_cell. rewrite list_lookup_alter.
  destruct (decide (i = i')) as [<-|Hne].
  - destruct (track !! i) as [r|] eqn:Hr.
    + cbn [fmap option_fmap option_map mbind option_bind].
      eapply Forall_lookup_1 in Hw; [|exact Hr].
      destruct (decide (j = j')) as [<-|Hnej].
      * rewrite decide_True by auto.
        apply list_lookup_insert_eq. lia.
      * rewrite decide_False by tauto.
        apply list_lookup_insert_ne. exact Hnej.
    + apply lookup_ge_None in Hr. lia.
  - rewrite decide_False by tauto. reflexivity.
Qed.

(** What the loop leaves in the grid: its shape is kept; a cell that no row
    is written to keeps its value, and a cell that is written to holds the
    reward of the last row written to it. *)
Lemma foldM_turns (rows : list Trace.t) (h w : nat)
  (track track' : list (list float)) :
  h = Z.to_nat track_size.1 -> w = Z.to_nat track_size.2 ->
  grid_shape h w track ->
  result_foldM (plot_track_turn track_size x_shift y_shift) rows track = Ok track' ->
  grid_shape h w track'
  /\ Forall (fun r => is_Some (track_cell track_size x_shift y_shift r)) rows
  /\ (forall i j,
        Forall (fun r => track_cell track_size x_shift y_shift r <> Some (i, j))
               rows ->
        grid_cell track' i j = grid_cell track i j)
  /\ (forall i j pre r post,
        rows = pre ++ r :: post ->
        track_cell track_size x_shift y_shift r = Some (i, j) ->
        Forall (fun r' => track_cell track_size x_shift y_shift r' <> Some (i, j))
               post ->
        grid_cell track' i j = Some (Trace.reward r)).
Proof.
  intros Hh Hw. revert track.
  induction rows as [|r0 rows IH]; intros track Hshape Hfold.
  - injection Hfold as <-. split; [exact Hshape|]. split; [constructor|].
    split; [reflexivity|]. intros i j [|] r post [=].
  - cbn [result_foldM] in Hfold.
    pose proof (turn_cell track r0) as Hturn.
    destruct (track_cell track_size x_shift y_shift r0) as [[i0 j0]|] eqn:Hcell.
    2:{ destruct (plot_track_turn track_size x_shift y_shift track r0);
          [discriminate Hturn | discriminate Hfold]. }
    rewrite Hturn in Hfold. cbn [mbind result_bind] in Hfold.
    assert ((i0 < h)%nat /\ (j0 < w)%nat) as [Hi0 Hj0].
    { unfold track_cell in Hcell.
      destruct (float_to_Z (Trace.x r0)) as [x|]; [|discriminate].
      destruct (float_to_Z (Trace.y r0)) as [y|]; [|discriminate].
      destruct (axis_cell track_size.1 _) as [i|] eqn:Hi; [|discriminate].
      destruct (axis_cell track_size.2 _) as [j|] eqn:Hj; [|discriminate].
      injection Hcell as <- <-.
      apply axis_cell_lt in Hi, Hj. subst h w. split; assumption. }
    pose proof (grid_shape_write h w i0 j0 (Trace.reward r0) track Hshape) as Hshape1.
    destruct (IH _ Hshape1 Hfold) as (Hs & Hall & Hkeep & Hlast).
    split; [exact Hs|].
    split; [constructor; [rewrite Hcell; eexists; reflexivity | exact Hall]|].
    split.
    + intros i j Hnone. apply Forall_cons in Hnone as [Hne Hnone].
      rewrite (Hkeep i j Hnone).
      rewrite (grid_cell_write h w) by assumption.
      rewrite decide_False; [reflexivity|]. intros [<- <-]. contradiction.
    + intros i j pre r post Hrows Hr Hpost.
      destruct pre as [|p pre]; cbn [app] in Hrows.
      * injection Hrows as <- <-. rewrite (Hkeep i j Hpost).
        rewrite Hr in Hcell. injection Hcell as <- <-.
        rewrite (grid_cell_write h w) by assumption.
        rewrite decide_True by auto. reflexivity.
      * injection Hrows as <- ->. eapply Hlast; [reflexivity | exact Hr | exact Hpost].
Qed.

Lemma foldM_turns_ok (rows : list Trace.t) (track : list (list float)) :
  Forall (fun r => is_Some (track_cell track_size x_shift y_shift r)) rows ->
  is_ok (result_foldM (plot_track_turn track_size x_shift y_shift) rows track) = true.
Proof.
  revert track. induction rows as [|r rows IH]; intros track Hall; [reflexivity|].
  apply Forall_cons in Hall as [[[i j] Hr] Hall].
  cbn [result_foldM]. pose proof (turn_cell track r) as Hturn.
  rewrite Hr in Hturn. rewrite Hturn. cbn [mbind result_bind]. apply IH, Hall.
Qed.

Lemma grid_shape_zeros (h w : nat) :
  grid_shape h w (replicate h (replicate w 0%float)).
Proof.
  split; [apply length_replicate|].
  apply Forall_replicate. apply length_replicate.
Qed.

Lemma grid_cell_zeros (h w i j : nat) (v : float) :
  grid_cell (replicate h (replicate w 0%float)) i j = Some v -> v = 0%float.
Proof.
  unfold grid_cell. intros Hv.
  destruct (replicate h _ !! i) as [r|] eqn:Hr; [|discriminate].
  apply lookup_replicate in Hr as [-> _]. cbn in Hv.
  apply lookup_replicate in Hv as [-> _]. reflexivity.
Qed.

(** X20: the grid that [plot_track] returns has the shape asked for; a cell
    that no row of the table is written to holds zero, and a cell that rows
    are written to holds the reward of the last of them. The cell of a row
    is that of its truncated, shifted coordinates: a coordinate past the
    grid is drawn on its last cell, a negative one is counted from the far
    edge. *)
Theorem plot_track_cells (print_border : result unit) (df : DataFrame)
  (track : list (list float)) :
  plot_track print_border df track_size x_shift y_shift = Ok track ->
  length track = Z.to_nat track_size.1
  /\ Forall (fun r => length r = Z.to_nat track_size.2) track
  /\ (forall i j v,
        grid_cell track i j = Some v ->
        Forall (fun r => track_cell track_size x_shift y_shift r <> Some (i, j))
               (traces df) ->
        v = 0%float)
  /\ (forall i j pre r post,
        traces df = pre ++ r :: post ->
        track_cell track_size x_shift y_shift r = Some (i, j) ->
        Forall (fun r' => track_cell track_size x_shift y_shift r' <> Some (i, j))
               post ->
        grid_cell track i j = Some (Trace.reward r)).
Proof.
  unfold plot_track, np_zeros. intros Hplot.
  destruct (_ || _)%bool; [discriminate|]. cbn [mbind result_bind] in Hplot.
  destruct (result_foldM (plot_track_turn track_size x_shift y_shift)
              (traces df) _) as [track1|e] eqn:Hfold;
    [|discriminate].
  cbn [mbind result_bind] in Hplot.
  destruct print_border as [[]|e]; [|discriminate].
  injection Hplot as <-.
  destruct (foldM_turns _ _ _ _ _ eq_refl eq_refl (grid_shape_zeros _ _) Hfold)
    as ([Hh Hw] & _ & Hkeep & Hlast).
  split; [exact Hh|]. split; [exact Hw|]. split.
  - intros i j v Hv Hnone. rewrite (Hkeep i j Hnone) in Hv.
    eapply grid_cell_zeros. exact Hv.
  - exact Hlast.
Qed.

(** X21: [plot_track] returns exactly when the size is not negative, every
    row of the table has a cell, and the drawing goes through. A row has no
    cell when a coordinate of it is an infinity or NaN, or lies, shifted,
    further below zero than the grid is long. *)
Theorem plot_track_returns (print_border : result unit) (df : DataFrame) :
  is_ok (plot_track print_border df track_size x_shift y_shift) = true
  <-> (0 <= track_size.1)%Z /\ (0 <= track_size.2)%Z
      /\ Forall (fun r => is_Some (track_cell track_size x_shift y_shift r))
                (traces df)
      /\ print_border = Ok tt.
Proof.
  unfold plot_track, np_zeros. split.
  - intros Hplot.
    destruct (Z.ltb_spec track_size.1 0); [discriminate|].
    destruct (Z.ltb_spec track_size.2 0); [discriminate|].
    cbn [orb mbind result_bind] in Hplot.
    destruct (result_foldM (plot_track_turn track_size x_shift y_shift)
              (traces df) _) as [track1|e] eqn:Hfold;
      [|discriminate].
    cbn [mbind result_bind] in Hplot.
    destruct print_border as [[]|e]; [|discriminate].
    destruct (foldM_turns _ _ _ _ _ eq_refl eq_refl (grid_shape_zeros _ _) Hfold)
      as (_ & Hall & _).
    repeat split; assumption.
  - intros (H1 & H2 & Hall & ->).
    destruct (Z.ltb_spec track_size.1 0); [lia|].
    destruct (Z.ltb_spec track_size.2 0); [lia|].
    cbn [orb mbind result_bind].
    pose proof (foldM_turns_ok (traces df)
                  (replicate (Z.to_nat track_size.1)
                     (replicate (Z.to_nat track_size.2) 0%float)) Hall) as Hok.
    destruct (result_foldM (plot_track_turn track_size x_shift y_shift)
                (traces df) _); [reflexivity | discriminate].
Qed.

End Track.

Lemma plot_track_cells_witness :
  exists track,
    PlottingUtils.plot_track (Ok tt) sample_table (2, 3)%Z 0 0 = Ok track
    /\ grid_cell track 0 0 = Some 2%float
    /\ length track = 2%nat.
Proof.
  eexists. split; [vm_compute; reflexivity|].
  destruct (plot_track_cells (2, 3)%Z 0 0 (Ok tt) sample_table _ eq_refl)
    as (Hh & _ & _ & Hlast).
  split; [|exact Hh].
  vm_compute. reflexivity.
Defined.
